(** * Snake (SFML): a shallow embedding of main.cpp and its properties

    The program is one file: a [Snake] struct (body deque, heading, growth
    flag), food placement by rejection sampling, a one-integer high-score
    file, and the frame loop of [main].  Each C++ function is rendered as a
    Rocq function of the same name; the local variables of [main] become the
    fields of the record [Game], and one iteration of the [while
    (window.isOpen())] loop is the function [frame].

    Integers: [int] is rendered as [Z].  Signed overflow is undefined in C++
    and does not occur on this board: in every state of a run the
    coordinates lie between -1 and 40 and the score between 0 and 12000
    ([run_in_bounds]).

    Floats: [float] is IEEE-754 binary32, rendered with the Standard
    Library's [spec_float] operations at precision 24 and maximal exponent
    128.  The product of two binary32 numbers is exact in binary64, so the
    interval update rounds once, to binary32, whether the compiler
    multiplies in single or in double precision. *)

From Stdlib Require Import String Ascii ZArith List Bool Lia.
From Stdlib Require Import QArith Qabs.
From Stdlib Require Import Floats.SpecFloat.
Import ListNotations.
Open Scope Z_scope.

(* ================================================================== *)
(** * Part I: the program *)

(* ------------------------------------------------------------------ *)
(** ** Constants (main.cpp, lines 12-16) *)

Definition BLOCK : Z := 20.
Definition COLS : Z := 40.
Definition ROWS : Z := 30.
Definition WIDTH : Z := COLS * BLOCK.
Definition HEIGHT : Z := ROWS * BLOCK.

Definition INT_MIN : Z := - 2 ^ 31.
Definition INT_MAX : Z := 2 ^ 31 - 1.

(* ------------------------------------------------------------------ *)
(** ** sf::Vector2i *)

Record Vector2i : Type := Vec { x : Z; y : Z }.

(** [operator+] on vectors. *)
Definition Vadd (a b : Vector2i) : Vector2i := Vec (x a + x b) (y a + y b).

(** Unary minus: the exact reverse of a heading. *)
Definition Vneg (a : Vector2i) : Vector2i := Vec (- x a) (- y a).

(** [operator==] on vectors (component-wise); [operator!=] is its negation. *)
Definition Veqb (a b : Vector2i) : bool := (x a =? x b) && (y a =? y b).

(* ------------------------------------------------------------------ *)
(** ** struct Snake (main.cpp, lines 18-38)

    The deque is a list with the head segment first: [push_front] is cons,
    [pop_back] is [removelast], [front] is the first element.  [front] of an
    empty deque is undefined in C++; the constructor pushes one segment and
    [move] keeps a non-empty body non-empty ([move_body_nonempty]), so the
    default below is never observed. *)

Record Snake : Type := mkSnake {
  body : list Vector2i;
  dir  : Vector2i;
  grow : bool
}.

Definition front (b : list Vector2i) : Vector2i := hd (Vec 0 0) b.

(** The constructor [Snake(sf::Vector2i start)]. *)
Definition Snake_new (start : Vector2i) : Snake :=
  {| body := [start]; dir := Vec 1 0; grow := false |}.

Definition nextHead (s : Snake) : Vector2i := Vadd (front (body s)) (dir s).

Definition move (s : Snake) : Snake :=
  let pushed := nextHead s :: body s in
  if negb (grow s)
  then {| body := removelast pushed; dir := dir s; grow := grow s |}
  else {| body := pushed; dir := dir s; grow := false |}.

(** A left-to-right scan that returns at the first segment equal to
    [target]: the loop body shared by [hitsSelf] and [occupies]. *)
Fixpoint scan_from (target : Vector2i) (segments : list Vector2i) : bool :=
  match segments with
  | [] => false
  | b :: rest => if Veqb b target then true else scan_from target rest
  end.

(** [for (size_t i = 1; i < body.size(); ++i) if (body[i] == body.front())]. *)
Definition hitsSelf (s : Snake) : bool :=
  scan_from (front (body s)) (tl (body s)).

(** [for (auto &b : body) if (b == p) return true;]. *)
Definition occupies (s : Snake) (p : Vector2i) : bool :=
  scan_from p (body s).

(* ------------------------------------------------------------------ *)
(** ** The random source (main.cpp, line 40 and line 44)

    [std::mt19937] and [std::uniform_int_distribution<int>] belong to the
    C++ library.  The program only needs: a generator state, and a draw
    from the closed range [a..b] that returns the advanced state. *)

Class Generator : Type := {
  rng : Type;
  uniform_int : Z -> Z -> rng -> Z * rng
}.

(** What the C++ standard promises of a draw: it lies in the closed range. *)
Class InRange (G : Generator) : Prop :=
  uniform_int_range :
    forall (a b : Z) (g : rng), a <= b ->
      a <= fst (uniform_int a b g) <= b.

(** A generator that replays a script; a draw reduces the next scripted
    number into the range, and an exhausted script yields the lower bound.
    It is used to run the program on concrete inputs. *)
Definition scripted_draw (a b : Z) (script : list Z) : Z * list Z :=
  match script with
  | [] => (a, [])
  | n :: rest => (a + n mod (b - a + 1), rest)
  end.

#[export] Instance Scripted : Generator :=
  {| rng := list Z; uniform_int := scripted_draw |}.

(* ------------------------------------------------------------------ *)
(** ** IEEE-754 binary32 ([float]) *)

Definition float : Type := spec_float.
Definition prec : Z := 24.
Definition emax : Z := 128.

Definition fadd : float -> float -> float := SFadd prec emax.
Definition fsub : float -> float -> float := SFsub prec emax.
Definition fmul : float -> float -> float := SFmul prec emax.
Definition fltb : float -> float -> bool := SFltb.
Definition fleb : float -> float -> bool := SFleb.

(** A decimal literal [num/den] with suffix [f]: the binary32 number
    nearest to the quotient (division of two exactly representable integers
    is correctly rounded). *)
Definition literal (num den : positive) : float :=
  SFdiv prec emax (binary_round prec emax false num 0)
                  (binary_round prec emax false den 0).

(** [0.12f], [0.95f], [0.03f] and [0.f]. *)
Definition f0_12 : float := Eval vm_compute in literal 12 100.
Definition f0_95 : float := Eval vm_compute in literal 95 100.
Definition f0_03 : float := Eval vm_compute in literal 3 100.
Definition f0 : float := S754_zero false.

(** [std::max(a, b)] is [(a < b) ? b : a]. *)
Definition std_max (a b : float) : float := if fltb a b then b else a.

(** The rational number a finite float denotes. *)
Definition float_value (f : float) : Q :=
  match f with
  | S754_finite sign m e =>
      let n := if sign then Z.neg m else Z.pos m in
      if 0 <=? e then inject_Z (n * 2 ^ e)
      else Qmake n (Z.to_pos (2 ^ (- e)))
  | _ => 0%Q
  end.

(* ------------------------------------------------------------------ *)
(** ** Food placement (main.cpp, lines 42-48)

    The [do ... while (snake.occupies(p))] loop draws until it finds a free
    cell; it has no bound of its own, so the model carries [fuel], the
    number of draws allowed, and returns [None] when it runs out. *)

Section Food.
Context {G : Generator}.

(** One pass of the loop body: [p = {dx(rng), dy(rng)}]. *)
Definition draw_cell (g : rng) : Vector2i * rng :=
  let (px, g1) := uniform_int 0 (COLS - 1) g in
  let (py, g2) := uniform_int 0 (ROWS - 1) g1 in
  (Vec px py, g2).

Fixpoint sample (fuel : nat) (snake : Snake) (g : rng)
  : option (Vector2i * rng) :=
  match fuel with
  | O => None
  | S fuel' =>
      let (p, g') := draw_cell g in
      if occupies snake p then sample fuel' snake g' else Some (p, g')
  end.

Definition spawnFood (fuel : nat) (snake : Snake) (g : rng)
  : option (Vector2i * rng) :=
  if Z.of_nat (length (body snake)) >=? COLS * ROWS
  then Some (Vec (-1) (-1), g)
  else sample fuel snake g.

End Food.

(* ------------------------------------------------------------------ *)
(** ** The high-score file (main.cpp, lines 50-57)

    [std::ifstream], [std::ofstream] and the stream operators belong to the
    C++ library.  A path is a name for a file, and several paths can name
    one file (["highscore.txt"] and ["./highscore.txt"], a link): [resolve]
    gives the file a path names, and the table [files] is keyed by the file,
    not by the path string, so what is written through one name is read
    through every other name of the same file.  [writable] says whether the
    [std::ofstream] of [saveHighscore] can be opened, and [save_calls]
    records every call of [saveHighscore] (most recent first), kept for the
    statements about it. *)

Record Disk : Type := mkDisk {
  resolve : string -> string;
  files : list (string * string);
  writable : bool;
  save_calls : list Z
}.

(** The content of the file [file], if it exists. *)
Fixpoint fs_read (fs : list (string * string)) (file : string)
  : option string :=
  match fs with
  | [] => None
  | (name, content) :: rest =>
      if String.eqb name file then Some content else fs_read rest file
  end.

(** The file [file] is created or truncated, and gets [content]. *)
Fixpoint fs_write (fs : list (string * string)) (file content : string)
  : list (string * string) :=
  match fs with
  | [] => [(file, content)]
  | (name, old) :: rest =>
      if String.eqb name file then (name, content) :: rest
      else (name, old) :: fs_write rest file content
  end.

(** [isspace] in the C locale. *)
Definition is_space (c : ascii) : bool :=
  let n := nat_of_ascii c in
  (Nat.eqb n 32 || (Nat.leb 9 n && Nat.leb n 13))%bool.

Definition digit_of (c : ascii) : option Z :=
  let n := Z.of_nat (nat_of_ascii c) in
  if (48 <=? n) && (n <=? 57) then Some (n - 48) else None.

Fixpoint skip_ws (s : string) : string :=
  match s with
  | String c rest => if is_space c then skip_ws rest else s
  | EmptyString => s
  end.

(** The value of the longest run of decimal digits at the start of [s]. *)
Fixpoint read_digits (acc : Z) (s : string) : Z :=
  match s with
  | String c rest =>
      match digit_of c with
      | Some d => read_digits (acc * 10 + d) rest
      | None => acc
      end
  | EmptyString => acc
  end.

(** [in >> h] for an [int]: skip white space, read an optional sign and a
    non-empty run of digits; the extraction fails when there is no digit or
    when the value does not fit an [int].  Characters after the digits stay
    in the stream. *)
Definition extract_int (s : string) : option Z :=
  let s1 := skip_ws s in
  let (negative, s2) :=
    match s1 with
    | String c rest =>
        if Ascii.eqb c "-" then (true, rest)
        else if Ascii.eqb c "+" then (false, rest)
        else (false, s1)
    | EmptyString => (false, s1)
    end in
  match s2 with
  | String c _ =>
      match digit_of c with
      | Some _ =>
          let v := read_digits 0 s2 in
          let v := if negative then - v else v in
          if (INT_MIN <=? v) && (v <=? INT_MAX) then Some v else None
      | None => None
      end
  | EmptyString => None
  end.

Definition digit_char (d : Z) : ascii := ascii_of_nat (Z.to_nat (48 + d)).

(** The digits of a non-negative number, most significant first, put in
    front of [acc]. *)
Fixpoint digits_onto (fuel : nat) (n : Z) (acc : string) : string :=
  match fuel with
  | O => acc
  | S fuel' =>
      let acc' := String (digit_char (n mod 10)) acc in
      if n <? 10 then acc' else digits_onto fuel' (n / 10) acc'
  end.

(** [out << s] for an [int]: a minus sign for a negative number, then its
    digits; an [int] has at most ten of them. *)
Definition insert_int (n : Z) : string :=
  if n <? 0 then String "-"%char (digits_onto 10 (- n) EmptyString)
  else digits_onto 10 n EmptyString.

Definition default_path : string := "highscore.txt".

(** [int h = 0; if (in >> h) return h; return 0;] -- a stream on a missing
    file is in a failed state, so the extraction fails. *)
Definition loadHighscore (d : Disk) (path : string) : Z :=
  match fs_read (files d) (resolve d path) with
  | Some content =>
      match extract_int content with
      | Some h => h
      | None => 0
      end
  | None => 0
  end.

(** [std::ofstream out(path); if (out) out << s;]. *)
Definition saveHighscore (s : Z) (path : string) (d : Disk) : Disk :=
  {| resolve := resolve d;
     files := if writable d
              then fs_write (files d) (resolve d path) (insert_int s)
              else files d;
     writable := writable d;
     save_calls := s :: save_calls d |}.

(* ------------------------------------------------------------------ *)
(** ** Input events (the part of sf::Event that [main] inspects) *)

Module Keyboard.
Inductive Key : Type :=
  Up | Down | Left | Right | W | S | A | D | R | Other.

Definition eqb (a b : Key) : bool :=
  match a, b with
  | Up, Up | Down, Down | Left, Left | Right, Right
  | W, W | S, S | A, A | D, D | R, R | Other, Other => true
  | _, _ => false
  end.
End Keyboard.

Inductive Event : Type :=
| Closed
| KeyPressed (code : Keyboard.Key)
| OtherEvent.

(* ------------------------------------------------------------------ *)
(** ** The game loop (main.cpp, lines 77-172) *)

(** One of the eight guarded assignments of lines 97-104:
    [if (code == key) { if (snake.dir != blocked) snake.dir = target; }]. *)
Definition turn (code key : Keyboard.Key) (blocked target d : Vector2i)
  : Vector2i :=
  if Keyboard.eqb code key
  then (if negb (Veqb d blocked) then target else d)
  else d.

(** Lines 97-104, in order. *)
Definition steer (code : Keyboard.Key) (d : Vector2i) : Vector2i :=
  let d := turn code Keyboard.Up    (Vec 0 1)    (Vec 0 (-1)) d in
  let d := turn code Keyboard.Down  (Vec 0 (-1)) (Vec 0 1)    d in
  let d := turn code Keyboard.Left  (Vec 1 0)    (Vec (-1) 0) d in
  let d := turn code Keyboard.Right (Vec (-1) 0) (Vec 1 0)    d in
  let d := turn code Keyboard.W     (Vec 0 1)    (Vec 0 (-1)) d in
  let d := turn code Keyboard.S     (Vec 0 (-1)) (Vec 0 1)    d in
  let d := turn code Keyboard.A     (Vec 1 0)    (Vec (-1) 0) d in
  let d := turn code Keyboard.D     (Vec (-1) 0) (Vec 1 0)    d in
  d.

(** The vector a key asks for: the right-hand side of its assignment. *)
Definition requested (code : Keyboard.Key) : option Vector2i :=
  match code with
  | Keyboard.Up | Keyboard.W => Some (Vec 0 (-1))
  | Keyboard.Down | Keyboard.S => Some (Vec 0 1)
  | Keyboard.Left | Keyboard.A => Some (Vec (-1) 0)
  | Keyboard.Right | Keyboard.D => Some (Vec 1 0)
  | Keyboard.R | Keyboard.Other => None
  end.

(** The lambda [resetGame]. *)
Definition resetGame : Snake := Snake_new (Vec (COLS / 2) (ROWS / 2)).

Section Loop.
Context {G : Generator}.

(** The local variables of [main] that the loop reads or writes, with the
    window's open flag, the generator and the disk. *)
Record Game : Type := mkGame {
  snake : Snake;
  food : Vector2i;
  moveDelay : float;
  acc : float;
  gameOver : bool;
  score : Z;
  highscore : Z;
  window_open : bool;
  gen : rng;
  disk : Disk
}.

Definition set_dir (d : Vector2i) (s : Snake) : Snake :=
  {| body := body s; dir := d; grow := grow s |}.

Definition set_grow (b : bool) (s : Snake) : Snake :=
  {| body := body s; dir := dir s; grow := b |}.

(** Lines 82-89: the state before the first frame. *)
Definition start (fuel : nat) (g : rng) (d : Disk) : option Game :=
  let s := resetGame in
  match spawnFood fuel s g with
  | Some (f, g') =>
      Some {| snake := s; food := f; moveDelay := f0_12; acc := f0;
              gameOver := false; score := 0;
              highscore := loadHighscore d default_path;
              window_open := true; gen := g'; disk := d |}
  | None => None
  end.

(** Lines 94-111: one event. *)
Definition handle_event (fuel : nat) (ev : Event) (gm : Game) : option Game :=
  match ev with
  | Closed =>
      Some {| snake := snake gm; food := food gm; moveDelay := moveDelay gm;
              acc := acc gm; gameOver := gameOver gm; score := score gm;
              highscore := highscore gm; window_open := false;
              gen := gen gm; disk := disk gm |}
  | KeyPressed code =>
      let s1 := if negb (gameOver gm)
                then set_dir (steer code (dir (snake gm))) (snake gm)
                else snake gm in
      if gameOver gm && Keyboard.eqb code Keyboard.R then
        let s2 := resetGame in
        match spawnFood fuel s2 (gen gm) with
        | Some (f, g') =>
            Some {| snake := s2; food := f; moveDelay := f0_12; acc := f0;
                    gameOver := false; score := 0;
                    highscore := highscore gm;
                    window_open := window_open gm; gen := g';
                    disk := disk gm |}
        | None => None
        end
      else
        Some {| snake := s1; food := food gm; moveDelay := moveDelay gm;
                acc := acc gm; gameOver := gameOver gm; score := score gm;
                highscore := highscore gm; window_open := window_open gm;
                gen := gen gm; disk := disk gm |}
  | OtherEvent => Some gm
  end.

(** [while (window.pollEvent(ev)) ...]: every queued event, in order. *)
Fixpoint poll_events (fuel : nat) (evs : list Event) (gm : Game)
  : option Game :=
  match evs with
  | [] => Some gm
  | ev :: rest =>
      match handle_event fuel ev gm with
      | Some gm' => poll_events fuel rest gm'
      | None => None
      end
  end.

(** Lines 118-135: one simulation step (the body of the timing test after
    the accumulator has been charged). *)
Definition tick (fuel : nat) (gm : Game) : option Game :=
  let s1 := move (snake gm) in
  let h := front (body s1) in
  let over1 :=
    if (x h <? 0) || (x h >=? COLS) || (y h <? 0) || (y h >=? ROWS)
    then true else gameOver gm in
  let over2 := if hitsSelf s1 then true else over1 in
  if negb over2 && Veqb h (food gm) then
    let s2 := set_grow true s1 in
    match spawnFood fuel s2 (gen gm) with
    | Some (f, g') =>
        Some {| snake := s2; food := f;
                moveDelay := std_max f0_03 (fmul (moveDelay gm) f0_95);
                acc := acc gm; gameOver := over2; score := score gm + 10;
                highscore := highscore gm; window_open := window_open gm;
                gen := g'; disk := disk gm |}
    | None => None
    end
  else
    Some {| snake := s1; food := food gm; moveDelay := moveDelay gm;
            acc := acc gm; gameOver := over2; score := score gm;
            highscore := highscore gm; window_open := window_open gm;
            gen := gen gm; disk := disk gm |}.

(** Lines 114-117: [acc += dt] and the timing test. *)
Definition charge (dt : float) (gm : Game) : Game :=
  {| snake := snake gm; food := food gm; moveDelay := moveDelay gm;
     acc := fadd (acc gm) dt; gameOver := gameOver gm; score := score gm;
     highscore := highscore gm; window_open := window_open gm;
     gen := gen gm; disk := disk gm |}.

Definition discharge (gm : Game) : Game :=
  {| snake := snake gm; food := food gm; moveDelay := moveDelay gm;
     acc := fsub (acc gm) (moveDelay gm); gameOver := gameOver gm;
     score := score gm; highscore := highscore gm;
     window_open := window_open gm; gen := gen gm; disk := disk gm |}.

Definition simulate (fuel : nat) (dt : float) (gm : Game) : option Game :=
  let gm1 := charge dt gm in
  if negb (gameOver gm1) && fleb (moveDelay gm1) (acc gm1)
  then tick fuel (discharge gm1)
  else Some gm1.

(** Lines 163-164, the only part of rendering that writes program state:
    [if (gameOver) if (score > highscore) { highscore = score;
    saveHighscore(highscore); }]. *)
Definition record_highscore (gm : Game) : Game :=
  if gameOver gm && (score gm >? highscore gm) then
    {| snake := snake gm; food := food gm; moveDelay := moveDelay gm;
       acc := acc gm; gameOver := gameOver gm; score := score gm;
       highscore := score gm; window_open := window_open gm;
       gen := gen gm;
       disk := saveHighscore (score gm) default_path (disk gm) |}
  else gm.

(** One iteration of [while (window.isOpen())]: the queued events, the
    elapsed time [dt] read from the clock, then rendering. *)
Definition frame (fuel : nat) (evs : list Event) (dt : float) (gm : Game)
  : option Game :=
  match poll_events fuel evs gm with
  | Some gm1 =>
      match simulate fuel dt gm1 with
      | Some gm2 => Some (record_highscore gm2)
      | None => None
      end
  | None => None
  end.

(** The loop: one frame per input while the window is open. *)
Fixpoint run (fuel : nat) (inputs : list (list Event * float)) (gm : Game)
  : option Game :=
  match inputs with
  | [] => Some gm
  | (evs, dt) :: rest =>
      if window_open gm then
        match frame fuel evs dt gm with
        | Some gm' => run fuel rest gm'
        | None => None
        end
      else Some gm
  end.

(** [n] simulation steps in a row. *)
Fixpoint ticks (fuel : nat) (n : nat) (gm : Game) : option Game :=
  match n with
  | O => Some gm
  | S k =>
      match ticks fuel k gm with
      | Some gm' => tick fuel gm'
      | None => None
      end
  end.

(** The state after a run of frames through which the session stays in
    GameOver. *)
Inductive remains_over (fuel : nat)
  : Game -> list (list Event * float) -> Game -> Prop :=
| remains_nil (gm : Game) : remains_over fuel gm [] gm
| remains_cons (gm gm1 gm2 : Game) (evs : list Event) (dt : float)
    (rest : list (list Event * float)) :
    frame fuel evs dt gm = Some gm1 ->
    gameOver gm1 = true ->
    remains_over fuel gm1 rest gm2 ->
    remains_over fuel gm ((evs, dt) :: rest) gm2.

End Loop.

(* ------------------------------------------------------------------ *)
(** ** Rendering (main.cpp, lines 63-75 and 138-171)

    What one pass of the drawing code hands to the window, in order.  The
    HUD is drawn before line 164 updates the high score, so [render] reads
    the state as the simulation left it. *)

Record Color : Type := RGB { red : Z; green : Z; blue : Z }.

(** [sf::Color::Red] and [sf::Color::Green]. *)
Definition Red : Color := RGB 255 0 0.
Definition Green : Color := RGB 0 255 0.

(** [(float)n] for an [int]. *)
Definition float_of_int (n : Z) : float :=
  match n with
  | Z0 => S754_zero false
  | Zpos m => binary_round prec emax false m 0
  | Zneg m => binary_round prec emax true m 0
  end.

Inductive Draw : Type :=
| Clear (background : Color)
| DrawBlock (px py : float) (fill : Color)
| DrawText (text : string) (px py : float) (size : Z)
| Display.

(** The side of [blockShape]: [BLOCK - 1]. *)
Definition block_side : Z := BLOCK - 1.

(** [blockShape.setPosition((float)(p.x*BLOCK), (float)(p.y*BLOCK));
    blockShape.setFillColor(fill); window.draw(blockShape);]. *)
Definition draw_block (p : Vector2i) (fill : Color) : Draw :=
  DrawBlock (float_of_int (x p * BLOCK)) (float_of_int (y p * BLOCK)) fill.

(** Lines 149-155: the loop over the body, [head] true for the first
    segment only. *)
Fixpoint draw_snake (head : bool) (segments : list Vector2i) : list Draw :=
  match segments with
  | [] => []
  | p :: rest =>
      draw_block p (if head then Green else RGB 0 180 0)
        :: draw_snake false rest
  end.

Section Rendering.
Context {G : Generator}.

(** ["Score: " + std::to_string(score) + "  High: " +
    std::to_string(highscore)]. *)
Definition hud_text (gm : Game) : string :=
  ("Score: " ++ insert_int (score gm) ++ "  High: "
   ++ insert_int (highscore gm))%string.

Definition render (fontLoaded : bool) (gm : Game) : list Draw :=
  [Clear (RGB 30 30 30)]
  ++ (if x (food gm) >=? 0 then [draw_block (food gm) Red] else [])
  ++ draw_snake true (body (snake gm))
  ++ (if fontLoaded
      then [DrawText (hud_text gm) (float_of_int 6) (float_of_int 6) 18]
      else [])
  ++ (if gameOver gm && fontLoaded
      then [DrawText "Game Over! Press R to restart"
                     (float_of_int 8) (float_of_int (HEIGHT / 2 - 30)) 28]
      else [])
  ++ [Display].

End Rendering.

(* ================================================================== *)
(** * Part II: notions used in the statements *)

(** ** Predicates on vectors and snakes *)

(** The cells of the grid, column by column. *)
Definition cells : list Vector2i :=
  flat_map (fun cx => map (fun cy => Vec (Z.of_nat cx) (Z.of_nat cy))
                          (seq 0 (Z.to_nat ROWS)))
           (seq 0 (Z.to_nat COLS)).

(** Membership in the grid: the negation of the wall test of line 122. *)
Definition inside (p : Vector2i) : bool :=
  negb ((x p <? 0) || (x p >=? COLS) || (y p <? 0) || (y p >=? ROWS)).

(** The sentinel returned on a full board. *)
Definition no_food : Vector2i := Vec (-1) (-1).

(** The four unit steps along the axes. *)
Definition axis_step (d : Vector2i) : Prop :=
  d = Vec 0 (-1) \/ d = Vec 0 1 \/ d = Vec (-1) 0 \/ d = Vec 1 0.

(** The snake heads right along row 15, its head in column [20 + k], and
    no segment lies further right than the head. *)
Definition heading_right (k : Z) (s : Snake) : Prop :=
  dir s = Vec 1 0 /\ body s <> [] /\ front (body s) = Vec (20 + k) 15 /\
  forall p : Vector2i, In p (body s) -> x p <= 20 + k.

(** The food is not on one of the cells (21,15) .. (39,15) ahead of the
    starting head. *)
Definition off_path (f : Vector2i) : Prop :=
  ~ (y f = 15 /\ 21 <= x f <= 39).

(** The snake lies inside the grid and no two of its segments share a
    cell. *)
Definition valid_snake (s : Snake) : Prop :=
  body s <> [] /\ Forall (fun p => inside p = true) (body s) /\
  NoDup (body s).

(** ** Files and their contents *)

(** Two ways in which paths name files: every path names a file of its
    own; and a leading ["./"] makes no difference. *)
Definition own_file (path : string) : string := path.

Definition drop_dot_slash (path : string) : string :=
  match path with
  | String "." (String "/" rest) => rest
  | _ => path
  end.


(** Every character of [s] is white space. *)
Fixpoint all_space (s : string) : bool :=
  match s with
  | EmptyString => true
  | String c rest => is_space c && all_space rest
  end.

(** [s] does not start with a digit. *)
Definition no_digit_ahead (s : string) : Prop :=
  match s with
  | EmptyString => True
  | String c _ => digit_of c = None
  end.

(** [s] is empty or starts with a character that is neither white space,
    nor a sign, nor a digit. *)
Definition no_number_ahead (s : string) : Prop :=
  match s with
  | EmptyString => True
  | String c _ =>
      is_space c = false /\ c <> "-"%char /\ c <> "+"%char /\
      digit_of c = None
  end.

(** Every character of [s] is a decimal digit. *)
Fixpoint all_digits (s : string) : bool :=
  match s with
  | EmptyString => true
  | String c rest =>
      match digit_of c with
      | Some _ => all_digits rest
      | None => false
      end
  end.

Definition digit_value (c : ascii) : Z := Z.of_nat (nat_of_ascii c) - 48.

(** The number a string of digits denotes, position by position: the
    first of [k + 1] digits counts [10 ^ k] times its value. *)
Fixpoint decimal_value (s : string) : Z :=
  match s with
  | EmptyString => 0
  | String c rest =>
      digit_value c * 10 ^ Z.of_nat (String.length rest) + decimal_value rest
  end.

(** The signs a number can carry: none, plus or minus. *)
Definition is_sign (sgn : string) : Prop :=
  sgn = ""%string \/ sgn = "+"%string \/ sgn = "-"%string.

Definition signed (sgn : string) (v : Z) : Z :=
  if String.eqb sgn "-" then - v else v.

(** [v] when it fits an [int], and 0 otherwise. *)
Definition int_or_zero (v : Z) : Z :=
  if (INT_MIN <=? v) && (v <=? INT_MAX) then v else 0.

(** The file format in the words of the specification, "decimal ASCII
    integer, no delimiter": digits and nothing else, after an optional
    minus sign. *)
Definition decimal_integer (s : string) : bool :=
  match s with
  | String c rest =>
      if Ascii.eqb c "-"
      then negb (String.eqb rest "") && all_digits rest
      else all_digits s
  | EmptyString => false
  end.

(** The number a [decimal_integer] denotes. *)
Definition decimal_integer_value (s : string) : Z :=
  match s with
  | String c rest =>
      if Ascii.eqb c "-" then - decimal_value rest else decimal_value s
  | EmptyString => 0
  end.

(** The file [file] exists in the table and holds [content]. *)
Inductive holds : list (string * string) -> string -> string -> Prop :=
| holds_here (fs : list (string * string)) (file content : string) :
    holds ((file, content) :: fs) file content
| holds_later (fs : list (string * string)) (name old file content : string) :
    name <> file -> holds fs file content ->
    holds ((name, old) :: fs) file content.

(** The file that [path] names exists on the disk and holds [content]. *)
Definition file_holds (d : Disk) (path content : string) : Prop :=
  holds (files d) (resolve d path) content.

(** No file of the disk is named by [path]. *)
Definition file_missing (d : Disk) (path : string) : Prop :=
  forall content : string, ~ In (resolve d path, content) (files d).

(** The three shapes of a file content, as [in >> h] sees it: white space,
    an optional sign and a run of digits, followed by something that does
    not continue the run; white space and then no number; white space and
    a sign without a digit after it. *)
Definition number_shape (content ws sgn ds rest : string) : Prop :=
  content = (ws ++ sgn ++ ds ++ rest)%string /\ all_space ws = true /\
  is_sign sgn /\ ds <> ""%string /\ all_digits ds = true /\
  no_digit_ahead rest.

Definition blank_shape (content ws rest : string) : Prop :=
  content = (ws ++ rest)%string /\ all_space ws = true /\
  no_number_ahead rest.

Definition lone_sign_shape (content ws : string) (c : ascii) (rest : string)
  : Prop :=
  content = (ws ++ String c rest)%string /\ all_space ws = true /\
  (c = "-"%char \/ c = "+"%char) /\ no_digit_ahead rest.

(** ** The interval, as computed and in exact arithmetic *)

(** The interval after [n] meals: line 133 applied [n] times to [0.12f]. *)
Definition speed_up (d : float) : float := std_max f0_03 (fmul d f0_95).

Fixpoint delay_after (n : nat) : float :=
  match n with
  | O => f0_12
  | S k => speed_up (delay_after k)
  end.





(** ** Predicates on sessions *)

Section Notions.
Context {G : Generator}.

(** What [gameOver] holds after the two collision tests of a step. *)
Definition collided (gm : Game) : bool :=
  let h := front (body (move (snake gm))) in
  if hitsSelf (move (snake gm)) then true
  else if (x h <? 0) || (x h >=? COLS) || (y h <? 0) || (y h >=? ROWS)
       then true else gameOver gm.

(** The state a step produces when nothing is eaten. *)
Definition moved (gm : Game) : Game :=
  {| snake := move (snake gm); food := food gm; moveDelay := moveDelay gm;
     acc := acc gm; gameOver := collided gm; score := score gm;
     highscore := highscore gm; window_open := window_open gm;
     gen := gen gm; disk := disk gm |}.

(** The test of line 129 in the step from [gm]: the step has not ended the
    game and the new head is on the food. *)
Definition eats (gm : Game) : bool :=
  negb (collided gm) && Veqb (front (body (move (snake gm)))) (food gm).

(** How many of the first [n] steps from [gm] eat. *)
Fixpoint meals (fuel n : nat) (gm : Game) : nat :=
  match n with
  | O => O
  | S k =>
      meals fuel k gm +
      match ticks fuel k gm with
      | Some gk => if eats gk then 1 else 0
      | None => 0
      end
  end.

(** A session that has just been reset, possibly steered since: one
    segment in the middle of the grid, heading along an axis. *)
Definition fresh (gm : Game) : Prop :=
  gameOver gm = false /\ body (snake gm) = [Vec 20 15] /\
  axis_step (dir (snake gm)).

(** What a polling pass that starts in GameOver with score [sc] can reach:
    still GameOver with that score, or a fresh session. *)
Definition over_or_fresh (sc : Z) (gm : Game) : Prop :=
  (gameOver gm = true /\ score gm = sc) \/ fresh gm.

(** The cell drawn at the [n]-th pass of the sampling loop (from 0). *)
Fixpoint candidate (n : nat) (g : rng) : Vector2i * rng :=
  match n with
  | O => draw_cell g
  | S k => candidate k (snd (draw_cell g))
  end.

(** The session has had [n] meals: the score is ten times [n] and the
    interval is line 133 applied [n] times to 0.12f. *)
Definition paced (gm : Game) : Prop :=
  exists n : nat, score gm = 10 * Z.of_nat n /\ moveDelay gm = delay_after n.

(** The invariant of the loop: a session that is not over has a valid
    snake. *)
Definition playing_valid (gm : Game) : Prop :=
  gameOver gm = false -> valid_snake (snake gm).

(** The invariant that keeps every [int] of the program far from
    overflow: the heading is a unit step, every segment is at most one
    step outside the grid, and the score counts the segments grown and
    pending. *)
Definition in_bounds (gm : Game) : Prop :=
  axis_step (dir (snake gm)) /\ body (snake gm) <> [] /\
  Forall (fun p => -1 <= x p <= COLS /\ -1 <= y p <= ROWS)
         (body (snake gm)) /\
  score gm =
    10 * (Z.of_nat (length (body (snake gm)))
          + (if grow (snake gm) then 1 else 0) - 1) /\
  Z.of_nat (length (body (snake gm)))
    + (if grow (snake gm) then 1 else 0) <= COLS * ROWS + 1 /\
  playing_valid gm.

End Notions.

(** ** Concrete sessions and snakes *)

(** A session with the food at (21,15) whose random source draws that
    cell, the one the head reaches first, fifty times in a row. *)
Definition stuck_ahead : @Game Scripted :=
  @mkGame Scripted resetGame (Vec 21 15) f0_12 f0 false 0 0 true
    (concat (repeat [21; 15] 50)) (mkDisk own_file [] true []).

(** The starting state when the generator's first two draws are 21 and 15:
    the food is placed at (21,15), next to the head. *)
Definition food_ahead : @Game Scripted :=
  {| snake := resetGame; food := Vec 21 15; moveDelay := f0_12; acc := f0;
     gameOver := false; score := 0; highscore := 0; window_open := true;
     gen := [0; 0]; disk := mkDisk own_file [] true [] |}.

(** A session about to run into the right wall with 30 points, the file
    holding 10; one second passes in each frame. *)
Definition before_wall : @Game Scripted :=
  {| snake := {| body := [Vec 39 15]; dir := Vec 1 0; grow := false |};
     food := Vec 3 4; moveDelay := f0_12; acc := f0; gameOver := false;
     score := 30; highscore := 10; window_open := true; gen := [];
     disk := mkDisk own_file [(default_path, "10"%string)] true [] |}.

Definition one_second : float := Eval vm_compute in literal 1 1.

(** The frame in which it hits the wall, and a later frame. *)
Definition at_wall : @Game Scripted :=
  {| snake := {| body := [Vec 40 15]; dir := Vec 1 0; grow := false |};
     food := Vec 3 4; moveDelay := f0_12;
     acc := S754_finite false 14763950 (-24); gameOver := true;
     score := 30; highscore := 30; window_open := true; gen := [];
     disk := mkDisk own_file [(default_path, "30"%string)] true [30] |}.

Definition at_wall_later : @Game Scripted :=
  {| snake := {| body := [Vec 40 15]; dir := Vec 1 0; grow := false |};
     food := Vec 3 4; moveDelay := f0_12;
     acc := S754_finite false 15770583 (-23); gameOver := true;
     score := 30; highscore := 30; window_open := true; gen := [];
     disk := mkDisk own_file [(default_path, "30"%string)] true [30] |}.

(** All cells of the grid along a path that runs row by row from (0,0),
    left to right on even rows and right to left on odd rows, to (0,29). *)
Definition serpentine : list Vector2i :=
  flat_map (fun r =>
              map (fun c => Vec (if Nat.even r then Z.of_nat c
                                 else 39 - Z.of_nat c) (Z.of_nat r))
                  (seq 0 40))
           (seq 0 30).

(** A snake that has filled the board along that path, tail at (0,0), and
    with growth pending has moved once more, off the left edge. *)
Definition overfull : Snake :=
  {| body := Vec (-1) 29 :: rev serpentine; dir := Vec (-1) 0;
     grow := false |}.

(** ** Notions for the further properties *)

(** Difference of two vectors. *)
Definition Vsub (a b : Vector2i) : Vector2i := Vec (x a - x b) (y a - y b).

(** Each segment is one axis step away from the segment behind it. *)
Fixpoint connected (segments : list Vector2i) : Prop :=
  match segments with
  | a :: (b :: _) as rest => axis_step (Vsub a b) /\ connected rest
  | _ => True
  end.

(** No key of the list is R. *)
Fixpoint no_restart (evs : list Event) : bool :=
  match evs with
  | [] => true
  | KeyPressed code :: rest => negb (Keyboard.eqb code Keyboard.R)
                               && no_restart rest
  | _ :: rest => no_restart rest
  end.

(** A [Closed] event is among the events. *)
Fixpoint closes (evs : list Event) : bool :=
  match evs with
  | [] => false
  | Closed :: _ => true
  | _ :: rest => closes rest
  end.

(** The pixel rectangle of a drawn block lies inside the window. *)
Definition on_screen (d : Draw) : Prop :=
  match d with
  | DrawBlock px py _ =>
      exists cx cy : Z,
        0 <= cx < COLS /\ 0 <= cy < ROWS /\
        (float_value px == inject_Z (cx * BLOCK))%Q /\
        (float_value py == inject_Z (cy * BLOCK))%Q /\
        0 <= cx * BLOCK /\ cx * BLOCK + block_side < WIDTH /\
        0 <= cy * BLOCK /\ cy * BLOCK + block_side < HEIGHT
  | _ => True
  end.

Section MoreNotions.
Context {G : Generator}.

(** The food is the sentinel, or a cell of the grid that no segment of the
    snake occupies. *)
Definition food_clear (gm : Game) : Prop :=
  food gm = no_food \/
  (inside (food gm) = true /\ occupies (snake gm) (food gm) = false).

(** The file can be written and holds the high score the program holds. *)
Definition stored (gm : Game) : Prop :=
  writable (disk gm) = true /\
  loadHighscore (disk gm) default_path = highscore gm.

(** The heading is a unit step and the body is a non-empty connected
    path. *)
Definition is_path (gm : Game) : Prop :=
  axis_step (dir (snake gm)) /\ body (snake gm) <> [] /\
  connected (body (snake gm)).

(** The body is not empty and the food is clear of it. *)
Definition fed (gm : Game) : Prop :=
  body (snake gm) <> [] /\ food_clear gm.

(** The numbers of the session are in bounds and the file holds the high
    score. *)
Definition kept_on_disk (gm : Game) : Prop :=
  in_bounds gm /\ stored gm.

End MoreNotions.

(** What holds of the interval after [n] meals: at least the floor, at most
    the start value, comparable with itself (not NaN), and not shorter than
    after one more meal. *)
Definition delay_in_range (n : nat) : bool :=
  fleb f0_03 (delay_after n) && fleb (delay_after n) f0_12
  && fleb (delay_after n) (delay_after n)
  && fleb (delay_after (S n)) (delay_after n).

(** The pixel coordinate of column (or row) [i] converts to [float]
    without rounding. *)
Definition exact_pixel (i : nat) : bool :=
  Qeq_bool (float_value (float_of_int (Z.of_nat i * BLOCK)))
           (inject_Z (Z.of_nat i * BLOCK)).

(** The draw is a block. *)
Definition is_block (d : Draw) : bool :=
  match d with DrawBlock _ _ _ => true | _ => false end.

(** The session of [food_ahead] one frame of one second later: the food has
    been eaten. *)
Definition after_meal : @Game Scripted :=
  {| snake := {| body := [Vec 21 15]; dir := Vec 1 0; grow := true |};
     food := Vec 0 0; moveDelay := S754_finite false 15300820 (-27);
     acc := S754_finite false 14763950 (-24); gameOver := false;
     score := 10; highscore := 0; window_open := true; gen := [];
     disk := mkDisk own_file [] true [] |}.

(** One more frame of one second, with Down pressed: the snake has grown
    and turned. *)
Definition after_turn : @Game Scripted :=
  {| snake := {| body := [Vec 21 16; Vec 21 15]; dir := Vec 0 1;
                 grow := false |};
     food := Vec 0 0; moveDelay := S754_finite false 15300820 (-27);
     acc := S754_finite false 14814282 (-23); gameOver := false;
     score := 10; highscore := 0; window_open := true; gen := [];
     disk := mkDisk own_file [] true [] |}.

(** The session of [food_ahead] after twenty frames of one second: the
    food eaten, the wall hit, the score saved. *)
Definition crashed : @Game Scripted :=
  {| snake := {| body := [Vec 40 15; Vec 39 15]; dir := Vec 1 0;
                 grow := false |};
     food := Vec 0 0; moveDelay := S754_finite false 15300820 (-27);
     acc := S754_finite false 9287236 (-19); gameOver := true;
     score := 10; highscore := 10; window_open := true; gen := [];
     disk := mkDisk own_file [(default_path, "10"%string)] true [10] |}.

(** The session of [at_wall] after a frame in which R was pressed. *)
Definition restarted : @Game Scripted :=
  {| snake := {| body := [Vec 21 15]; dir := Vec 1 0; grow := false |};
     food := Vec 0 0; moveDelay := f0_12;
     acc := S754_finite false 14763950 (-24); gameOver := false;
     score := 0; highscore := 30; window_open := true; gen := [];
     disk := mkDisk own_file [(default_path, "30"%string)] true [30] |}.

(** The snake that covers the board along [serpentine], head at (0,29),
    having just eaten the last food. *)
Definition full_board : @Game Scripted :=
  {| snake := {| body := rev serpentine; dir := Vec (-1) 0; grow := true |};
     food := no_food; moveDelay := f0_03; acc := f0; gameOver := false;
     score := 12000; highscore := 0; window_open := true; gen := [];
     disk := mkDisk own_file [] true [] |}.

(* ================================================================== *)
(** * Part III: properties *)

(* ------------------------------------------------------------------ *)
(** ** Vectors and scans *)

Lemma Veqb_eq (a b : Vector2i) : Veqb a b = true <-> a = b.
Proof.
  destruct a as [ax ay], b as [bx by_]; unfold Veqb; cbn.
  rewrite andb_true_iff, !Z.eqb_eq. split.
  - intros [-> ->]; reflexivity.
  - intros E; injection E; auto.
Qed.

Lemma Veqb_neq (a b : Vector2i) : Veqb a b = false <-> a <> b.
Proof.
  rewrite <- Veqb_eq. destruct (Veqb a b); split; congruence.
Qed.

Lemma Veqb_refl (a : Vector2i) : Veqb a a = true.
Proof. apply Veqb_eq; reflexivity. Qed.

Lemma scan_from_In (t : Vector2i) (l : list Vector2i) :
  scan_from t l = true <-> In t l.
Proof.
  induction l as [|b rest IH]; cbn.
  - split; [discriminate | tauto].
  - destruct (Veqb b t) eqn:E.
    + apply Veqb_eq in E. tauto.
    + apply Veqb_neq in E. rewrite IH. tauto.
Qed.

Lemma scan_from_not_In (t : Vector2i) (l : list Vector2i) :
  scan_from t l = false <-> ~ In t l.
Proof.
  rewrite <- scan_from_In. destruct (scan_from t l); split; congruence.
Qed.


(* ------------------------------------------------------------------ *)
(** ** Snake::move *)

Lemma move_body (s : Snake) :
  body s <> [] ->
  body (move s) =
  nextHead s :: (if grow s then body s else removelast (body s)).
Proof.
  intros NE. unfold move. destruct (grow s); cbn [negb body].
  - reflexivity.
  - destruct (body s) as [|h t]; [congruence | reflexivity].
Qed.

Lemma move_body_nonempty (s : Snake) : body s <> [] -> body (move s) <> [].
Proof.
  intros NE. rewrite (move_body s NE). discriminate.
Qed.

Lemma length_removelast_cons (A : Type) (a : A) (l : list A) :
  length (removelast (a :: l)) = length l.
Proof.
  revert a. induction l as [|b l IH]; intros a; [reflexivity|].
  change (removelast (a :: b :: l)) with (a :: removelast (b :: l)).
  cbn [length]. now rewrite IH.
Qed.

Lemma move_length (s : Snake) :
  length (body (move s)) =
  if grow s then S (length (body s)) else length (body s).
Proof.
  unfold move. destruct (grow s); cbn [negb body]; [reflexivity|].
  apply length_removelast_cons.
Qed.

Lemma move_grow (s : Snake) : grow (move s) = false.
Proof. unfold move. destruct (grow s) eqn:E; cbn; auto. Qed.

Lemma move_dir (s : Snake) : dir (move s) = dir s.
Proof. unfold move. destruct (grow s); reflexivity. Qed.

(** C6: for every snake (its body is never empty), [move] with the growth
    flag clear keeps the length of the body, and with the flag set makes the
    body exactly one longer; the flag is false afterwards in both cases; the
    new body is the old head plus the heading, put in front of the old body
    (flag set) or of the old body without its last segment (flag clear). *)
Theorem move_advances (s : Snake) :
  body s <> [] ->
  (grow s = false -> length (body (move s)) = length (body s)) /\
  (grow s = true -> length (body (move s)) = S (length (body s))) /\
  grow (move s) = false /\
  front (body (move s)) = Vadd (front (body s)) (dir s) /\
  body (move s) =
    Vadd (front (body s)) (dir s)
      :: (if grow s then body s else removelast (body s)).
Proof.
  intros NE.
  pose proof (move_length s) as L.
  pose proof (move_body s NE) as B.
  repeat split.
  - intros E; now rewrite E in L.
  - intros E; now rewrite E in L.
  - apply move_grow.
  - now rewrite B.
  - exact B.
Qed.

Lemma move_advances_witness :
  let s := {| body := [Vec 21 15; Vec 20 15]; dir := Vec 0 1; grow := true |} in
  body (move s) = [Vec 21 16; Vec 21 15; Vec 20 15] /\
  length (body (move s)) = S (length (body s)) /\
  grow (move s) = false.
Proof.
  intros s.
  assert (NE : body s <> []) by (cbn; discriminate).
  destruct (move_advances s NE) as (_ & Hgrow & Hflag & _ & Hbody).
  split; [exact Hbody | split; [apply Hgrow; reflexivity | exact Hflag]].
Defined.

(* ------------------------------------------------------------------ *)
(** ** Snake::hitsSelf *)

Lemma In_nth_error_iff (t : Vector2i) (l : list Vector2i) :
  In t l <-> exists i : nat, nth_error l i = Some t.
Proof.
  split.
  - apply In_nth_error.
  - intros [i E]. eapply nth_error_In; eauto.
Qed.

Lemma hitsSelf_index (s : Snake) :
  hitsSelf s = true <->
  exists i : nat, (1 <= i)%nat /\ nth_error (body s) i = Some (front (body s)).
Proof.
  unfold hitsSelf. rewrite scan_from_In, In_nth_error_iff.
  destruct (body s) as [|h t]; cbn [tl front hd].
  - split.
    + intros [i E]. destruct i; discriminate.
    + intros [i [_ E]]. destruct i; discriminate.
  - split.
    + intros [i E]. exists (S i). split; [lia | exact E].
    + intros [i [Hi E]]. destruct i as [|j]; [lia|]. exists j. exact E.
Qed.

(** C7: [hitsSelf] is true exactly when the head (index 0) equals the
    segment at some index 1 or greater; and when a move without growth puts
    the head on the cell of the last segment, which no other segment
    occupied, [hitsSelf] is false after the move. *)
Theorem hitsSelf_spec (s : Snake) :
  (hitsSelf s = true <->
   exists i : nat,
     (1 <= i)%nat /\ nth_error (body s) i = Some (front (body s))) /\
  (body s <> [] -> grow s = false ->
   nextHead s = last (body s) (Vec 0 0) ->
   ~ In (last (body s) (Vec 0 0)) (removelast (body s)) ->
   hitsSelf (move s) = false).
Proof.
  split; [apply hitsSelf_index|].
  intros NE Hg Hnext Hfree.
  unfold hitsSelf. rewrite (move_body s NE), Hg. cbn [tl front hd].
  apply scan_from_not_In. now rewrite Hnext.
Qed.

Lemma hitsSelf_spec_witness :
  let s := {| body := [Vec 5 5; Vec 5 6; Vec 6 6; Vec 6 5];
              dir := Vec 1 0; grow := false |} in
  hitsSelf (move s) = false /\
  body (move s) = [Vec 6 5; Vec 5 5; Vec 5 6; Vec 6 6].
Proof.
  intros s. split; [|reflexivity].
  apply (proj2 (hitsSelf_spec s)).
  - cbn; discriminate.
  - reflexivity.
  - reflexivity.
  - cbn. intros [E | [E | [E | []]]]; discriminate.
Defined.

(* ------------------------------------------------------------------ *)
(** ** Steering (lines 96-105) *)

(** The eight guarded assignments collapse to one test per key: a key
    leaves the heading alone exactly when the heading equals the reverse of
    what the key asks for. *)
Lemma steer_requested (code : Keyboard.Key) (r d : Vector2i) :
  requested code = Some r ->
  steer code d = if Veqb d (Vneg r) then d else r.
Proof.
  destruct code; cbn [requested]; intros E; inversion E; subst r;
    unfold steer, turn, Vneg; cbn [Keyboard.eqb x y Z.opp];
    match goal with |- context [Veqb d ?v] => destruct (Veqb d v) end;
    reflexivity.
Qed.

Lemma steer_other (code : Keyboard.Key) (d : Vector2i) :
  requested code = None -> steer code d = d.
Proof.
  destruct code; cbn [requested]; intros E; try discriminate; reflexivity.
Qed.

Lemma Vneg_swap (a b : Vector2i) : a = Vneg b <-> b = Vneg a.
Proof.
  destruct a as [ax ay], b as [bx by_]; unfold Vneg; cbn.
  split; intros E; injection E; intros; f_equal; lia.
Qed.

Section SteeringProps.
Context {G : Generator}.

Lemma handle_key_playing (fuel : nat) (code : Keyboard.Key) (gm : Game) :
  gameOver gm = false ->
  handle_event fuel (KeyPressed code) gm =
  Some {| snake := set_dir (steer code (dir (snake gm))) (snake gm);
          food := food gm; moveDelay := moveDelay gm; acc := acc gm;
          gameOver := gameOver gm; score := score gm;
          highscore := highscore gm; window_open := window_open gm;
          gen := gen gm; disk := disk gm |}.
Proof.
  intros E. unfold handle_event. rewrite E. reflexivity.
Qed.

(** C5: while playing, a key that asks for vector [r] leaves the heading
    unchanged when [r] is the exact reverse of the current heading, and for
    every other current heading makes the heading exactly [r]; the body and
    the growth flag are untouched. *)
Theorem heading_change (fuel : nat) (code : Keyboard.Key) (r : Vector2i)
    (gm : Game) :
  gameOver gm = false ->
  requested code = Some r ->
  exists gm' : Game,
    handle_event fuel (KeyPressed code) gm = Some gm' /\
    (r = Vneg (dir (snake gm)) -> dir (snake gm') = dir (snake gm)) /\
    (r <> Vneg (dir (snake gm)) -> dir (snake gm') = r) /\
    body (snake gm') = body (snake gm) /\
    grow (snake gm') = grow (snake gm).
Proof.
  intros Hplay Hreq. eexists. split; [apply handle_key_playing, Hplay|].
  cbn [snake set_dir dir body grow].
  rewrite (steer_requested code r _ Hreq).
  destruct (Veqb (dir (snake gm)) (Vneg r)) eqn:E.
  - repeat split; auto. intros NE. apply Veqb_eq, Vneg_swap in E. congruence.
  - repeat split; auto. intros Erev. apply Veqb_neq in E.
    apply Vneg_swap in Erev. congruence.
Qed.

(** C9: two key presses handled in one polling pass, with no move of the
    snake between them, can reverse the heading although the guard accepts
    each of them: from heading (1,0), Up is accepted and gives (0,-1), then
    Left is accepted and gives (-1,0), the reverse of (1,0). *)
Theorem double_turn_reverses :
  exists (code1 code2 : Keyboard.Key) (r1 r2 : Vector2i),
    requested code1 = Some r1 /\ requested code2 = Some r2 /\
    forall (fuel : nat) (gm : Game),
      gameOver gm = false ->
      dir (snake gm) = Vec 1 0 ->
      exists gm1 gm2 : Game,
        handle_event fuel (KeyPressed code1) gm = Some gm1 /\
        dir (snake gm1) = r1 /\ r1 <> dir (snake gm) /\
        handle_event fuel (KeyPressed code2) gm1 = Some gm2 /\
        dir (snake gm2) = r2 /\ r2 <> dir (snake gm1) /\
        poll_events fuel [KeyPressed code1; KeyPressed code2] gm = Some gm2 /\
        dir (snake gm2) = Vneg (dir (snake gm)) /\
        body (snake gm2) = body (snake gm).
Proof.
  exists Keyboard.Up, Keyboard.Left, (Vec 0 (-1)), (Vec (-1) 0).
  split; [reflexivity|]. split; [reflexivity|].
  intros fuel gm Hplay Hdir.
  eexists. eexists.
  split; [apply handle_key_playing, Hplay|].
  cbn [snake set_dir dir body gameOver]. rewrite Hdir.
  split; [reflexivity|]. split; [discriminate|].
  split; [apply handle_key_playing; exact Hplay|].
  cbn [snake set_dir dir body gameOver poll_events].
  split; [reflexivity|]. split; [discriminate|].
  split.
  - rewrite (handle_key_playing fuel Keyboard.Up gm Hplay).
    rewrite handle_key_playing by exact Hplay.
    cbn [snake set_dir dir body]. rewrite Hdir. reflexivity.
  - split; reflexivity.
Qed.

End SteeringProps.

Lemma heading_change_witness :
  let gm := {| snake := Snake_new (Vec 20 15); food := Vec 3 4;
               moveDelay := f0_12; acc := f0; gameOver := false;
               score := 0; highscore := 0; window_open := true;
               gen := ([] : list Z);
               disk := mkDisk own_file [] true [] |} in
  exists gm' : Game,
    handle_event 1 (KeyPressed Keyboard.Left) gm = Some gm' /\
    dir (snake gm') = Vec 1 0.
Proof.
  intros gm.
  destruct (@heading_change Scripted 1%nat Keyboard.Left (Vec (-1) 0) gm
              eq_refl eq_refl) as (gm' & Hev & Hrev & _).
  exists gm'. split; [exact Hev|]. apply Hrev. reflexivity.
Defined.

(* ------------------------------------------------------------------ *)
(** ** The simulation step (lines 118-135) *)

Section TickProps.
Context {G : Generator}.

Lemma tick_cases (fuel : nat) (gm : Game) :
  tick fuel gm =
  if negb (collided gm) && Veqb (front (body (move (snake gm)))) (food gm)
  then
    match spawnFood fuel (set_grow true (move (snake gm))) (gen gm) with
    | Some (f, g') =>
        Some {| snake := set_grow true (move (snake gm)); food := f;
                moveDelay := speed_up (moveDelay gm); acc := acc gm;
                gameOver := false; score := score gm + 10;
                highscore := highscore gm; window_open := window_open gm;
                gen := g'; disk := disk gm |}
    | None => None
    end
  else Some (moved gm).
Proof.
  unfold tick, moved, collided, speed_up.
  destruct (hitsSelf (move (snake gm)));
    destruct ((x (front (body (move (snake gm)))) <? 0)
              || (x (front (body (move (snake gm)))) >=? COLS)
              || (y (front (body (move (snake gm)))) <? 0)
              || (y (front (body (move (snake gm)))) >=? ROWS));
    cbn [negb andb]; try reflexivity.
  destruct (gameOver gm); cbn [negb andb]; try reflexivity.
Qed.

Lemma outside_collides (gm : Game) :
  inside (front (body (move (snake gm)))) = false -> collided gm = true.
Proof.
  unfold inside, collided. intros E. apply negb_false_iff in E. rewrite E.
  destruct (hitsSelf _); reflexivity.
Qed.

(** C10: when the food is the sentinel (-1,-1), a step eats nothing: a head
    with a negative coordinate makes the wall test set [gameOver], and the
    eating rule is guarded by [!gameOver], so a head equal to the sentinel
    never reaches the comparison with the food.  The step then only moves
    the snake: score, interval and food are what they were, and the growth
    flag is the one [move] leaves (false). *)
Theorem no_food_never_eaten (fuel : nat) (gm : Game) :
  food gm = no_food ->
  tick fuel gm = Some (moved gm) /\
  score (moved gm) = score gm /\
  moveDelay (moved gm) = moveDelay gm /\
  food (moved gm) = no_food /\
  snake (moved gm) = move (snake gm) /\
  grow (snake (moved gm)) = false /\
  (x (front (body (move (snake gm)))) < 0 \/
   y (front (body (move (snake gm)))) < 0 ->
   gameOver (moved gm) = true).
Proof.
  intros Hfood.
  assert (Hneg : x (front (body (move (snake gm)))) < 0 \/
                 y (front (body (move (snake gm)))) < 0 ->
                 collided gm = true).
  { intros H. apply outside_collides. unfold inside.
    apply negb_false_iff. destruct H as [H | H]; apply Z.ltb_lt in H;
      rewrite H; cbn [orb]; [reflexivity|].
    now rewrite !orb_true_r. }
  split.
  - rewrite tick_cases.
    destruct (Veqb (front (body (move (snake gm)))) (food gm)) eqn:E.
    + apply Veqb_eq in E. rewrite Hfood in E.
      rewrite Hneg by (rewrite E; cbn; lia). reflexivity.
    + rewrite andb_false_r. reflexivity.
  - cbn [moved score moveDelay food snake gameOver].
    repeat split; auto. apply move_grow.
Qed.

End TickProps.

Lemma no_food_never_eaten_witness :
  let gm := {| snake := {| body := [Vec 0 0; Vec 1 0]; dir := Vec (-1) 0;
                           grow := false |};
               food := no_food; moveDelay := f0_03; acc := f0;
               gameOver := false; score := 11980; highscore := 0;
               window_open := true; gen := ([] : list Z);
               disk := mkDisk own_file [] true [] |} in
  tick 0 gm = Some (moved gm) /\ score (moved gm) = 11980 /\
  gameOver (moved gm) = true.
Proof.
  intros gm.
  destruct (@no_food_never_eaten Scripted 0%nat gm eq_refl)
    as (Ht & Hs & _).
  split; [exact Ht|]. split; [exact Hs|]. reflexivity.
Defined.

(* ------------------------------------------------------------------ *)
(** ** Running straight into the right wall *)

Lemma In_removelast (A : Type) (a : A) (l : list A) :
  In a (removelast l) -> In a l.
Proof.
  induction l as [|b l IH]; [tauto|].
  destruct l as [|c l]; [cbn; tauto|].
  change (removelast (b :: c :: l)) with (b :: removelast (c :: l)).
  intros [E | H]; [left; exact E | right; apply IH, H].
Qed.

Section StraightRun.
Context {G : Generator}.

Lemma heading_right_start : heading_right 0 resetGame.
Proof.
  repeat split; try discriminate.
  intros p [<- | []]. cbn. lia.
Qed.

Lemma heading_right_set_grow (k : Z) (b : bool) (s : Snake) :
  heading_right k s -> heading_right k (set_grow b s).
Proof. intros H; exact H. Qed.

Lemma heading_right_move (k : Z) (s : Snake) :
  heading_right k s ->
  heading_right (k + 1) (move s) /\ hitsSelf (move s) = false.
Proof.
  intros (Hd & NE & Hf & Hx).
  pose proof (move_body s NE) as B.
  assert (Hn : nextHead s = Vec (20 + (k + 1)) 15).
  { unfold nextHead. rewrite Hf, Hd. unfold Vadd; cbn [x y]. f_equal; lia. }
  assert (Hrest : forall p, In p (if grow s then body s
                                  else removelast (body s)) -> x p <= 20 + k).
  { intros p Hp. apply Hx. destruct (grow s); [exact Hp|].
    apply In_removelast, Hp. }
  split.
  - repeat split.
    + rewrite move_dir. exact Hd.
    + apply move_body_nonempty, NE.
    + rewrite B. exact Hn.
    + rewrite B. intros p [<- | Hp].
      * rewrite Hn. cbn [x]. lia.
      * specialize (Hrest p Hp). lia.
  - unfold hitsSelf. rewrite B. cbn [tl front hd].
    apply scan_from_not_In. intros Hin. specialize (Hrest _ Hin).
    rewrite Hn in Hrest. cbn [x] in Hrest. lia.
Qed.

Lemma heading_right_collided (k : Z) (gm : Game) :
  0 <= k ->
  heading_right k (snake gm) -> gameOver gm = false ->
  collided gm = (40 <=? 20 + (k + 1)).
Proof.
  intros Hk H Hplay. destruct (heading_right_move k _ H) as [(_ & _ & Hf & _) Hs].
  unfold collided. rewrite Hs, Hf, Hplay. cbn [x y].
  unfold COLS, ROWS.
  replace (20 + (k + 1) <? 0) with false by (symmetry; apply Z.ltb_ge; lia).
  rewrite Z.geb_leb. cbn [orb].
  destruct (40 <=? 20 + (k + 1)); reflexivity.
Qed.

Lemma tick_heading_right (fuel : nat) (k : Z) (gm gm' : Game) :
  0 <= k -> heading_right k (snake gm) -> gameOver gm = false ->
  tick fuel gm = Some gm' ->
  heading_right (k + 1) (snake gm') /\
  gameOver gm' = (40 <=? 20 + (k + 1)).
Proof.
  intros Hk H Hplay Ht.
  pose proof (heading_right_collided k gm Hk H Hplay) as Hc.
  destruct (heading_right_move k _ H) as [Hm _].
  rewrite tick_cases in Ht.
  destruct (negb (collided gm) && Veqb _ _) eqn:Eat.
  - destruct (spawnFood _ _ _) as [[f g']|]; [|discriminate].
    injection Ht as <-. cbn [snake gameOver].
    split; [apply heading_right_set_grow, Hm|].
    apply andb_true_iff in Eat. destruct Eat as [Eat _].
    apply negb_true_iff in Eat. congruence.
  - injection Ht as <-. cbn [snake gameOver moved]. split; assumption.
Qed.

Lemma tick_off_path (fuel : nat) (k : Z) (gm : Game) :
  0 <= k -> heading_right k (snake gm) -> gameOver gm = false ->
  off_path (food gm) ->
  tick fuel gm = Some (moved gm).
Proof.
  intros Hk H Hplay Hoff.
  pose proof (heading_right_collided k gm Hk H Hplay) as Hc.
  destruct (heading_right_move k _ H) as [(_ & _ & Hf & _) _].
  rewrite tick_cases.
  destruct (negb (collided gm) && Veqb _ _) eqn:Eat; [|reflexivity].
  exfalso. apply andb_true_iff in Eat. destruct Eat as [Hnc Heq].
  apply negb_true_iff in Hnc. rewrite Hc in Hnc. apply Z.leb_gt in Hnc.
  apply Veqb_eq in Heq. rewrite Hf in Heq. apply Hoff.
  rewrite <- Heq. cbn [x y]. lia.
Qed.

Lemma ticks_heading_right (fuel : nat) (gm0 : Game) :
  snake gm0 = resetGame -> gameOver gm0 = false ->
  forall (n : nat) (gn : Game),
    (n <= 20)%nat -> ticks fuel n gm0 = Some gn ->
    heading_right (Z.of_nat n) (snake gn) /\
    gameOver gn = (40 <=? 20 + Z.of_nat n).
Proof.
  intros Hs Hplay. induction n as [|n IH]; intros gn Hn Ht.
  - injection Ht as <-. rewrite Hs, Hplay. split; [apply heading_right_start|].
    reflexivity.
  - cbn [ticks] in Ht.
    destruct (ticks fuel n gm0) as [gm|] eqn:E; [|discriminate].
    destruct (IH gm ltac:(lia) eq_refl) as [H Hover].
    assert (Hp : gameOver gm = false).
    { rewrite Hover. apply Z.leb_gt. lia. }
    replace (Z.of_nat (S n)) with (Z.of_nat n + 1) by lia.
    apply (tick_heading_right fuel (Z.of_nat n) gm gn); auto. lia.
Qed.

Lemma ticks_off_path (fuel : nat) (gm0 : Game) :
  snake gm0 = resetGame -> gameOver gm0 = false -> off_path (food gm0) ->
  forall n : nat,
    (n <= 20)%nat ->
    exists gn : Game,
      ticks fuel n gm0 = Some gn /\ score gn = score gm0 /\
      food gn = food gm0.
Proof.
  intros Hs Hplay Hoff. induction n as [|n IH]; intros Hn.
  - exists gm0. repeat split.
  - destruct (IH ltac:(lia)) as (gm & Ht & Hsc & Hfood).
    destruct (ticks_heading_right fuel gm0 Hs Hplay n _ ltac:(lia) Ht)
      as [H Hover].
    assert (Hp : gameOver gm = false).
    { rewrite Hover. apply Z.leb_gt. lia. }
    exists (moved gm). cbn [ticks]. rewrite Ht.
    split; [|split; assumption].
    apply (tick_off_path fuel (Z.of_nat n)); auto; [lia|].
    now rewrite Hfood.
Qed.

(** C4 (as amended): on the 40x30 grid, from the starting snake at (20,15)
    heading (1,0) and with no key pressed, a step can only fail to return
    inside [spawnFood], whose loop has no bound of its own.  Whenever the
    steps return, the game is not over after fewer than 20 of them, with
    the head at (20 + n, 15) after [n], and it is over after the 20th, when
    the head leaves the grid at column 40, wherever the food is.  All 20
    steps do return provided every food placement asked for on the way
    returns.  When the food is not on the cells (21,15) .. (39,15) ahead of
    the head, no placement is asked for: all 20 steps return, whatever the
    random source does, and the score is still 0. *)
Theorem straight_run_hits_wall (fuel : nat) (gm0 : Game) :
  snake gm0 = resetGame -> gameOver gm0 = false -> score gm0 = 0 ->
  (forall (n : nat) (gn : Game),
      (n < 20)%nat -> ticks fuel n gm0 = Some gn ->
      gameOver gn = false /\
      front (body (snake gn)) = Vec (20 + Z.of_nat n) 15) /\
  (forall g20 : Game,
      ticks fuel 20 gm0 = Some g20 ->
      gameOver g20 = true /\ front (body (snake g20)) = Vec 40 15) /\
  ((forall (n : nat) (gn : Game),
       (n < 20)%nat -> ticks fuel n gm0 = Some gn -> eats gn = true ->
       spawnFood fuel (set_grow true (move (snake gn))) (gen gn) <> None) ->
   (exists g20 : Game,
       ticks fuel 20 gm0 = Some g20 /\ gameOver g20 = true /\
       score g20 = 10 * Z.of_nat (meals fuel 20 gm0)) /\
   (forall n : nat, (n < 20)%nat ->
       exists gn : Game,
         ticks fuel n gm0 = Some gn /\ gameOver gn = false)) /\
  (off_path (food gm0) ->
   (exists g20 : Game,
       ticks fuel 20 gm0 = Some g20 /\ gameOver g20 = true /\
       score g20 = 0) /\
   (forall n : nat, (n < 20)%nat ->
       exists gn : Game,
         ticks fuel n gm0 = Some gn /\ gameOver gn = false /\
         score gn = 0)).
Proof.
  intros Hs Hplay Hscore.
  assert (Early : forall (n : nat) (gn : Game),
             (n < 20)%nat -> ticks fuel n gm0 = Some gn ->
             gameOver gn = false /\
             front (body (snake gn)) = Vec (20 + Z.of_nat n) 15).
  { intros n gn Hn Ht.
    destruct (ticks_heading_right fuel gm0 Hs Hplay n _ ltac:(lia) Ht)
      as [(_ & _ & Hf & _) Hover].
    split; [|exact Hf]. rewrite Hover. apply Z.leb_gt. lia. }
  assert (Last : forall g20 : Game,
             ticks fuel 20 gm0 = Some g20 ->
             gameOver g20 = true /\ front (body (snake g20)) = Vec 40 15).
  { intros g20 Ht.
    destruct (ticks_heading_right fuel gm0 Hs Hplay 20%nat _ ltac:(lia) Ht)
      as [(_ & _ & Hf & _) Hover].
    split; [exact Hover | exact Hf]. }
  split; [exact Early|]. split; [exact Last|]. split.
  - intros Hret.
    assert (All : forall n : nat,
               (n <= 20)%nat ->
               exists gn : Game,
                 ticks fuel n gm0 = Some gn /\
                 score gn = 10 * Z.of_nat (meals fuel n gm0)).
    { induction n as [|n IH]; intros Hn; cbn [ticks meals].
      - exists gm0. split; [reflexivity | rewrite Hscore; reflexivity].
      - destruct (IH ltac:(lia)) as (gn & Ht & Hsc). rewrite Ht.
        rewrite tick_cases. fold (eats gn).
        destruct (eats gn) eqn:He.
        + pose proof (Hret n gn ltac:(lia) Ht He) as Hsome.
          destruct (spawnFood _ _ _) as [[f g']|]; [|now contradiction Hsome].
          eexists. split; [reflexivity|]. cbn [score]. lia.
        + exists (moved gn). split; [reflexivity|]. cbn [score moved]. lia. }
    split.
    + destruct (All 20%nat ltac:(lia)) as (g20 & Ht & Hsc).
      exists g20. split; [exact Ht|]. split; [apply Last, Ht | exact Hsc].
    + intros n Hn. destruct (All n ltac:(lia)) as (gn & Ht & _).
      exists gn. split; [exact Ht | apply (Early n gn Hn Ht)].
  - intros Hoff. split.
    + destruct (ticks_off_path fuel gm0 Hs Hplay Hoff 20%nat ltac:(lia))
        as (g20 & Ht & Hsc & _).
      exists g20. split; [exact Ht|]. split; [apply Last, Ht | congruence].
    + intros n Hn.
      destruct (ticks_off_path fuel gm0 Hs Hplay Hoff n ltac:(lia))
        as (gn & Ht & Hsc & _).
      exists gn. split; [exact Ht|].
      split; [apply (Early n gn Hn Ht) | congruence].
Qed.

End StraightRun.

(** C4 as stated fails: with the food at (21,15) the first step eats it, and
    after the same 20 steps the game is over with score 10. *)
Lemma straight_run_can_score :
  start 5 [21; 15; 0; 0] (mkDisk own_file [] true []) = Some food_ahead /\
  snake food_ahead = resetGame /\ gameOver food_ahead = false /\
  score food_ahead = 0 /\
  option_map gameOver (ticks 5 19 food_ahead) = Some false /\
  option_map gameOver (ticks 5 20 food_ahead) = Some true /\
  option_map score (ticks 5 20 food_ahead) = Some 10 /\
  option_map score (ticks 5 20 food_ahead) <> Some 0.
Proof.
  repeat split; try reflexivity.
  all: vm_compute; try reflexivity; discriminate.
Qed.

(** Only the steps before a meal need no draw: with the food at (21,15)
    the first step asks for a placement, and while the source draws
    (21,15), the cell the head has just reached, the loop goes on: forty
    passes do not make the step return. *)
Example straight_run_can_stall :
  eats stuck_ahead = true /\
  option_map score (tick 40 stuck_ahead) = None.
Proof. split; vm_compute; reflexivity. Qed.

(** The theorem for the session whose food is at (21,15), on the way: the
    one placement asked for returns, the twenty steps return and end the
    game; and for a session whose food is at (3,4), off the way. *)
Lemma straight_run_hits_wall_witness :
  (exists g20 : Game,
      ticks 5 20 food_ahead = Some g20 /\ gameOver g20 = true /\
      score g20 = 10 * Z.of_nat (meals 5 20 food_ahead)) /\
  let gm0 := @mkGame Scripted resetGame (Vec 3 4) f0_12 f0 false 0 0 true
               [] (mkDisk own_file [] true []) in
  exists g20 : Game,
    ticks 0 20 gm0 = Some g20 /\ gameOver g20 = true /\ score g20 = 0.
Proof.
  split.
  - destruct (@straight_run_hits_wall Scripted 5%nat food_ahead
                eq_refl eq_refl eq_refl) as (_ & _ & Hret & _).
    apply Hret. intros n gn Hn Ht He.
    destruct n as [|n].
    { injection Ht as <-. vm_compute. discriminate. }
    exfalso.
    assert (Hno : forall k : nat,
               (k < 19)%nat ->
               option_map eats (ticks 5 (S k) food_ahead) = Some false).
    { intros k Hk.
      assert (All : forallb
                      (fun k => match option_map eats
                                        (ticks 5 (S k) food_ahead) with
                                | Some false => true
                                | _ => false
                                end) (seq 0 19) = true)
        by (vm_compute; reflexivity).
      rewrite forallb_forall in All.
      specialize (All k ltac:(apply in_seq; lia)).
      destruct (option_map eats (ticks 5 (S k) food_ahead)) as [[|]|];
        (discriminate || reflexivity). }
    specialize (Hno n ltac:(lia)). rewrite Ht in Hno. cbn in Hno.
    congruence.
  - intros gm0.
    destruct (@straight_run_hits_wall Scripted 0%nat gm0
                eq_refl eq_refl eq_refl) as (_ & _ & _ & Hoff).
    apply Hoff. unfold off_path. cbn. lia.
Defined.

(* ------------------------------------------------------------------ *)
(** ** Frames and the high score (lines 91-172) *)

Lemma steer_axis_step (code : Keyboard.Key) (d : Vector2i) :
  axis_step d -> axis_step (steer code d).
Proof.
  intros Hd. destruct (requested code) as [r|] eqn:E.
  - rewrite (steer_requested code r d E).
    destruct (Veqb d (Vneg r)); [exact Hd|].
    unfold axis_step. destruct code; cbn in E; inversion E; tauto.
  - now rewrite (steer_other code d E).
Qed.

Section FrameProps.
Context {G : Generator}.

Lemma handle_event_store (fuel : nat) (ev : Event) (gm gm' : Game) :
  handle_event fuel ev gm = Some gm' ->
  highscore gm' = highscore gm /\ disk gm' = disk gm.
Proof.
  destruct ev as [|code|]; cbn [handle_event].
  - intros E; injection E as <-; split; reflexivity.
  - destruct (gameOver gm && Keyboard.eqb code Keyboard.R).
    + destruct (spawnFood _ _ _) as [[f g']|]; [|discriminate].
      intros E; injection E as <-; split; reflexivity.
    + intros E; injection E as <-; split; reflexivity.
  - intros E; injection E as <-; split; reflexivity.
Qed.

Lemma handle_event_playing (fuel : nat) (ev : Event) (gm gm' : Game) :
  gameOver gm = false ->
  handle_event fuel ev gm = Some gm' ->
  gameOver gm' = false /\ score gm' = score gm.
Proof.
  intros Hplay. destruct ev as [|code|].
  - cbn [handle_event]. intros E; injection E as <-; split; cbn; auto.
  - rewrite (handle_key_playing fuel code gm Hplay).
    intros E; injection E as <-; split; cbn; auto.
  - cbn [handle_event]. intros E; injection E as <-; split; cbn; auto.
Qed.

Lemma handle_event_over_or_fresh (fuel : nat) (sc : Z) (ev : Event)
    (gm gm' : Game) :
  over_or_fresh sc gm ->
  handle_event fuel ev gm = Some gm' ->
  over_or_fresh sc gm'.
Proof.
  intros [[Hover Hsc] | (Hplay & Hb & Hd)]; destruct ev as [|code|];
    cbn [handle_event].
  - intros E; injection E as <-. left. cbn. auto.
  - rewrite Hover. cbn [andb negb].
    destruct (Keyboard.eqb code Keyboard.R).
    + destruct (spawnFood _ _ _) as [[f g']|]; [|discriminate].
      intros E; injection E as <-. right. unfold fresh, axis_step. cbn.
      repeat split; auto.
    + intros E; injection E as <-. left. cbn. auto.
  - intros E; injection E as <-. left. auto.
  - intros E; injection E as <-. right. unfold fresh. cbn. auto.
  - rewrite Hplay. cbn [andb negb].
    intros E; injection E as <-. right. unfold fresh. cbn.
    repeat split; auto. apply steer_axis_step, Hd.
  - intros E; injection E as <-. right. unfold fresh. auto.
Qed.

Lemma poll_events_store (fuel : nat) (evs : list Event) (gm gm' : Game) :
  poll_events fuel evs gm = Some gm' ->
  highscore gm' = highscore gm /\ disk gm' = disk gm.
Proof.
  revert gm. induction evs as [|ev evs IH]; intros gm; cbn [poll_events].
  - intros E; injection E as <-; split; reflexivity.
  - destruct (handle_event fuel ev gm) as [gm1|] eqn:E1; [|discriminate].
    intros E. destruct (handle_event_store fuel ev gm gm1 E1) as [H1 H2].
    destruct (IH gm1 E) as [H3 H4]. split; congruence.
Qed.

Lemma poll_events_playing (fuel : nat) (evs : list Event) (gm gm' : Game) :
  gameOver gm = false ->
  poll_events fuel evs gm = Some gm' ->
  gameOver gm' = false /\ score gm' = score gm.
Proof.
  revert gm. induction evs as [|ev evs IH]; intros gm Hplay;
    cbn [poll_events].
  - intros E; injection E as <-; split; [exact Hplay | reflexivity].
  - destruct (handle_event fuel ev gm) as [gm1|] eqn:E1; [|discriminate].
    intros E.
    destruct (handle_event_playing fuel ev gm gm1 Hplay E1) as [Hp Hs].
    destruct (IH gm1 Hp E) as [H3 H4]. split; congruence.
Qed.

Lemma poll_events_over_or_fresh (fuel : nat) (sc : Z) (evs : list Event)
    (gm gm' : Game) :
  over_or_fresh sc gm ->
  poll_events fuel evs gm = Some gm' ->
  over_or_fresh sc gm'.
Proof.
  revert gm. induction evs as [|ev evs IH]; intros gm HJ; cbn [poll_events].
  - intros E; injection E as <-; exact HJ.
  - destruct (handle_event fuel ev gm) as [gm1|] eqn:E1; [|discriminate].
    apply IH. eapply handle_event_over_or_fresh; eauto.
Qed.

Lemma fresh_not_collided (gm : Game) : fresh gm -> collided gm = false.
Proof.
  destruct gm as [[b d g] f md a over sc hs wo gn dk].
  unfold fresh, collided, axis_step. cbn [snake gameOver body dir].
  intros (-> & -> & Hd).
  destruct Hd as [-> | [-> | [-> | ->]]]; destruct g; reflexivity.
Qed.

Lemma tick_result (fuel : nat) (gm gm' : Game) :
  tick fuel gm = Some gm' ->
  highscore gm' = highscore gm /\ disk gm' = disk gm /\
  (gameOver gm' = true -> collided gm = true /\ score gm' = score gm).
Proof.
  rewrite tick_cases.
  destruct (negb (collided gm) && Veqb _ _) eqn:Eat.
  - destruct (spawnFood _ _ _) as [[f g']|]; [|discriminate].
    intros E; injection E as <-. cbn. repeat split; discriminate.
  - intros E; injection E as <-. cbn. repeat split; auto.
Qed.

Lemma simulate_result (fuel : nat) (dt : float) (gm gm' : Game) :
  simulate fuel dt gm = Some gm' ->
  highscore gm' = highscore gm /\ disk gm' = disk gm /\
  (gameOver gm' = true -> score gm' = score gm /\ ~ fresh gm).
Proof.
  unfold simulate. cbn [charge gameOver moveDelay acc].
  destruct (gameOver gm) eqn:Hover; cbn [negb andb].
  - intros E; injection E as <-. cbn. repeat split; auto.
    intros (Hp & _). congruence.
  - destruct (fleb _ _).
    + intros E. apply tick_result in E. cbn in E.
      destruct E as (Hh & Hd & Hs). repeat split; auto.
      * apply Hs; assumption.
      * intros Hf. destruct (Hs H) as [Hc _].
        assert (Hf' : fresh (discharge (charge dt gm))) by exact Hf.
        apply fresh_not_collided in Hf'. congruence.
    + intros E; injection E as <-. cbn. repeat split; auto; congruence.
Qed.

Lemma record_highscore_fields (gm : Game) :
  gameOver (record_highscore gm) = gameOver gm /\
  score (record_highscore gm) = score gm.
Proof.
  unfold record_highscore.
  destruct (gameOver gm && (score gm >? highscore gm)); split; reflexivity.
Qed.

Lemma record_highscore_over (gm : Game) :
  gameOver gm = true ->
  (highscore gm < score gm ->
   highscore (record_highscore gm) = score gm /\
   disk (record_highscore gm) =
     saveHighscore (score gm) default_path (disk gm)) /\
  (score gm <= highscore gm -> record_highscore gm = gm).
Proof.
  intros Hover. unfold record_highscore. rewrite Hover. cbn [andb].
  rewrite Z.gtb_ltb. split; intros H.
  - apply Z.ltb_lt in H. rewrite H. split; reflexivity.
  - apply Z.ltb_ge in H. rewrite H. reflexivity.
Qed.

Lemma frame_inv (fuel : nat) (evs : list Event) (dt : float)
    (gm gm' : Game) :
  frame fuel evs dt gm = Some gm' ->
  exists gm1 gm2 : Game,
    poll_events fuel evs gm = Some gm1 /\
    simulate fuel dt gm1 = Some gm2 /\
    gm' = record_highscore gm2.
Proof.
  unfold frame.
  destruct (poll_events fuel evs gm) as [gm1|] eqn:E1; [|discriminate].
  destruct (simulate fuel dt gm1) as [gm2|] eqn:E2; [|discriminate].
  intros E; injection E as <-. exists gm1, gm2. auto.
Qed.

(** The frame in which the session goes from playing to GameOver. *)
Lemma frame_enters_over (fuel : nat) (evs : list Event) (dt : float)
    (gm gm' : Game) :
  gameOver gm = false ->
  frame fuel evs dt gm = Some gm' ->
  gameOver gm' = true ->
  score gm' = score gm /\
  (highscore gm < score gm ->
   highscore gm' = score gm /\
   disk gm' = saveHighscore (score gm) default_path (disk gm)) /\
  (score gm <= highscore gm ->
   highscore gm' = highscore gm /\ disk gm' = disk gm).
Proof.
  intros Hplay Hf Hover.
  destruct (frame_inv fuel evs dt gm gm' Hf) as (gm1 & gm2 & Hp & Hs & ->).
  destruct (record_highscore_fields gm2) as [Hg Hsc].
  rewrite Hg in Hover. rewrite Hsc.
  destruct (poll_events_playing fuel evs gm gm1 Hplay Hp) as [_ Hs1].
  destruct (poll_events_store fuel evs gm gm1 Hp) as [Hh1 Hd1].
  destruct (simulate_result fuel dt gm1 gm2 Hs) as (Hh2 & Hd2 & Hs2).
  destruct (Hs2 Hover) as [Hs3 _].
  destruct (record_highscore_over gm2 Hover) as [Hsave Hkeep].
  assert (Esc : score gm2 = score gm) by congruence.
  assert (Ehs : highscore gm2 = highscore gm) by congruence.
  assert (Edk : disk gm2 = disk gm) by congruence.
  split; [exact Esc|]. split; intros H.
  - rewrite <- Esc, <- Edk. apply Hsave. lia.
  - rewrite Hkeep by lia. split; assumption.
Qed.

(** A frame that starts and ends in GameOver, the high score already being
    at least the score. *)
Lemma frame_stays_over (fuel : nat) (evs : list Event) (dt : float)
    (gm gm' : Game) :
  gameOver gm = true ->
  score gm <= highscore gm ->
  frame fuel evs dt gm = Some gm' ->
  gameOver gm' = true ->
  score gm' = score gm /\ highscore gm' = highscore gm /\
  disk gm' = disk gm.
Proof.
  intros Hstart Hle Hf Hover.
  destruct (frame_inv fuel evs dt gm gm' Hf) as (gm1 & gm2 & Hp & Hs & ->).
  destruct (record_highscore_fields gm2) as [Hg Hsc].
  rewrite Hg in Hover.
  destruct (poll_events_store fuel evs gm gm1 Hp) as [Hh1 Hd1].
  destruct (simulate_result fuel dt gm1 gm2 Hs) as (Hh2 & Hd2 & Hs2).
  destruct (Hs2 Hover) as [Hs3 Hnf].
  assert (HJ : over_or_fresh (score gm) gm1).
  { apply (poll_events_over_or_fresh fuel (score gm) evs gm gm1); [|exact Hp].
    left. auto. }
  destruct HJ as [[_ Hs1] | Hfresh]; [|contradiction].
  destruct (record_highscore_over gm2 Hover) as [_ Hkeep].
  rewrite Hkeep by lia.
  repeat split; congruence.
Qed.

Lemma remains_over_keeps (fuel : nat) (gm gm' : Game)
    (inputs : list (list Event * float)) :
  remains_over fuel gm inputs gm' ->
  gameOver gm = true -> score gm <= highscore gm ->
  gameOver gm' = true /\ score gm' = score gm /\
  highscore gm' = highscore gm /\ disk gm' = disk gm.
Proof.
  induction 1 as [gm | gm gm1 gm2 evs dt rest Hf Hover _ IH];
    intros Hstart Hle.
  - auto.
  - destruct (frame_stays_over fuel evs dt gm gm1 Hstart Hle Hf Hover)
      as (Hs & Hh & Hd).
    destruct (IH Hover ltac:(lia)) as (Hg2 & Hs2 & Hh2 & Hd2).
    repeat split; congruence.
Qed.

(** C3: in the frame that takes the session from playing into GameOver,
    [saveHighscore] is called once, with the final score, exactly when that
    score is strictly greater than the high score held; the high score held
    becomes the score in that same frame.  Through any further frames in
    which the session stays in GameOver there is no other call, and the
    score, the high score and the file stay as they are. *)
Theorem highscore_saved_once (fuel : nat) (evs : list Event) (dt : float)
    (rest : list (list Event * float)) (gm gm1 gm2 : Game) :
  gameOver gm = false ->
  frame fuel evs dt gm = Some gm1 ->
  gameOver gm1 = true ->
  remains_over fuel gm1 rest gm2 ->
  score gm1 = score gm /\
  (highscore gm < score gm ->
   highscore gm1 = score gm /\
   save_calls (disk gm1) = score gm :: save_calls (disk gm) /\
   disk gm1 = saveHighscore (score gm) default_path (disk gm)) /\
  (score gm <= highscore gm ->
   highscore gm1 = highscore gm /\ disk gm1 = disk gm) /\
  gameOver gm2 = true /\ score gm2 = score gm1 /\
  highscore gm2 = highscore gm1 /\ disk gm2 = disk gm1.
Proof.
  intros Hplay Hf Hover Hrest.
  destruct (frame_enters_over fuel evs dt gm gm1 Hplay Hf Hover)
    as (Hs & Hsave & Hkeep).
  assert (Hle : score gm1 <= highscore gm1).
  { destruct (Z_lt_le_dec (highscore gm) (score gm)) as [Hlt | Hge].
    - destruct (Hsave Hlt) as [-> _]. lia.
    - destruct (Hkeep Hge) as [-> _]. lia. }
  split; [exact Hs|]. split; [|split; [exact Hkeep|]].
  - intros Hlt. destruct (Hsave Hlt) as [Hh Hd].
    split; [exact Hh|]. split; [|exact Hd]. rewrite Hd. reflexivity.
  - apply (remains_over_keeps fuel gm1 gm2 rest Hrest Hover Hle).
Qed.

End FrameProps.

Lemma highscore_saved_once_witness :
  frame 1 [] one_second before_wall = Some at_wall /\
  frame 1 [KeyPressed Keyboard.Up] one_second at_wall = Some at_wall_later /\
  highscore at_wall = 30 /\ save_calls (disk at_wall) = [30] /\
  disk at_wall_later = disk at_wall /\
  loadHighscore (disk at_wall_later) default_path = 30.
Proof.
  assert (E1 : frame 1 [] one_second before_wall = Some at_wall)
    by reflexivity.
  assert (E2 : frame 1 [KeyPressed Keyboard.Up] one_second at_wall
               = Some at_wall_later) by reflexivity.
  destruct (@highscore_saved_once Scripted 1%nat [] one_second
              [([KeyPressed Keyboard.Up], one_second)]
              before_wall at_wall at_wall_later
              eq_refl E1 eq_refl
              (remains_cons 1 at_wall at_wall_later at_wall_later _ _ []
                 E2 eq_refl (remains_nil 1 at_wall_later)))
    as (_ & Hsave & _ & _ & _ & _ & Hd2).
  destruct (Hsave ltac:(cbn; lia)) as (Hh1 & Hc1 & _).
  split; [exact E1|]. split; [exact E2|].
  split; [exact Hh1|]. split; [exact Hc1|].
  split; [exact Hd2 | reflexivity].
Defined.

(* ------------------------------------------------------------------ *)
(** ** Food placement *)

Lemma Vec_eq_dec (a b : Vector2i) : {a = b} + {a <> b}.
Proof. decide equality; apply Z.eq_dec. Defined.

Lemma inside_iff (p : Vector2i) :
  inside p = true <-> 0 <= x p < COLS /\ 0 <= y p < ROWS.
Proof.
  unfold inside. rewrite negb_true_iff, !orb_false_iff.
  rewrite !Z.ltb_ge, !Z.geb_leb, !Z.leb_gt. tauto.
Qed.

Lemma cells_inside (p : Vector2i) : In p cells <-> inside p = true.
Proof.
  rewrite inside_iff. unfold cells. rewrite in_flat_map. split.
  - intros (cx & Hx & Hp). apply in_map_iff in Hp.
    destruct Hp as (cy & <- & Hy). apply in_seq in Hx, Hy.
    unfold COLS, ROWS in *. cbn [x y]. lia.
  - intros [Hx Hy]. exists (Z.to_nat (x p)). split.
    + apply in_seq. unfold COLS in *. lia.
    + apply in_map_iff. exists (Z.to_nat (y p)). split.
      * destruct p as [px py]. cbn [x y] in *. f_equal; lia.
      * apply in_seq. unfold ROWS in *. lia.
Qed.

Lemma cells_length : Z.of_nat (length cells) = COLS * ROWS.
Proof. vm_compute. reflexivity. Qed.



(** A snake that lies inside the grid and has no repeated segment has at
    most as many segments as the grid has cells. *)
Lemma valid_snake_length (s : Snake) :
  Forall (fun p => inside p = true) (body s) -> NoDup (body s) ->
  Z.of_nat (length (body s)) <= COLS * ROWS.
Proof.
  intros Hin Hnd. rewrite <- cells_length. apply inj_le.
  apply NoDup_incl_length; [exact Hnd|].
  intros p Hp. apply cells_inside. rewrite Forall_forall in Hin. auto.
Qed.

#[export] Instance Scripted_in_range : InRange Scripted.
Proof.
  intros a b script Hab. destruct script as [|n rest]; cbn; [lia|].
  pose proof (Z.mod_pos_bound n (b - a + 1) ltac:(lia)). lia.
Qed.

Section FoodProps.
Context {G : Generator}.

Lemma sample_unoccupied (fuel : nat) (s : Snake) (g g' : rng)
    (p : Vector2i) :
  sample fuel s g = Some (p, g') ->
  occupies s p = false /\ exists n : nat, (n < fuel)%nat /\ candidate n g = (p, g').
Proof.
  revert g. induction fuel as [|fuel IH]; intros g; cbn [sample];
    [discriminate|].
  destruct (draw_cell g) as [q g1] eqn:Ed.
  destruct (occupies s q) eqn:Eo.
  - intros E. destruct (IH g1 E) as [Hfree (n & Hn & Hc)].
    split; [exact Hfree|]. exists (S n). split; [lia|].
    cbn [candidate]. rewrite Ed. exact Hc.
  - intros E; injection E as <- <-. split; [exact Eo|].
    exists 0%nat. split; [lia | exact Ed].
Qed.

Lemma sample_finds (s : Snake) (n : nat) :
  forall (fuel : nat) (g : rng),
    (n < fuel)%nat ->
    occupies s (fst (candidate n g)) = false ->
    exists (p : Vector2i) (g' : rng), sample fuel s g = Some (p, g').
Proof.
  induction n as [|n IH]; intros fuel g Hn Hfree;
    (destruct fuel as [|fuel]; [lia|]); cbn [sample candidate] in *.
  - destruct (draw_cell g) as [q g1]. cbn [fst] in Hfree. rewrite Hfree.
    eauto.
  - destruct (draw_cell g) as [q g1]. cbn [snd] in Hfree.
    destruct (occupies s q); [|eauto].
    apply IH; [lia | exact Hfree].
Qed.

Lemma sample_more_fuel (s : Snake) (fuel fuel' : nat) (g : rng)
    (r : Vector2i * rng) :
  (fuel <= fuel')%nat -> sample fuel s g = Some r -> sample fuel' s g = Some r.
Proof.
  revert fuel' g. induction fuel as [|fuel IH]; intros fuel' g Hle;
    cbn [sample]; [discriminate|].
  destruct fuel' as [|fuel']; [lia|]. cbn [sample].
  destruct (draw_cell g) as [q g1]. destruct (occupies s q); [|auto].
  apply IH. lia.
Qed.

Context {R : InRange G}.

Lemma draw_cell_inside (g : rng) : inside (fst (draw_cell g)) = true.
Proof.
  unfold draw_cell.
  pose proof (uniform_int_range 0 (COLS - 1) g ltac:(unfold COLS; lia)) as Hx.
  destruct (uniform_int 0 (COLS - 1) g) as [px g1]. cbn [fst] in Hx.
  pose proof (uniform_int_range 0 (ROWS - 1) g1 ltac:(unfold ROWS; lia)) as Hy.
  destruct (uniform_int 0 (ROWS - 1) g1) as [py g2]. cbn [fst] in *.
  apply inside_iff. cbn [x y]. lia.
Qed.

Lemma candidate_inside (n : nat) (g : rng) :
  inside (fst (candidate n g)) = true.
Proof.
  revert g. induction n as [|n IH]; intros g; cbn [candidate].
  - apply draw_cell_inside.
  - apply IH.
Qed.



End FoodProps.

(** The guard of line 43 at work beyond a full board: a body of 1201
    segments, which no run of [main] produces, gets the sentinel. *)
Example spawnFood_beyond_full :
  @spawnFood Scripted 1 overfull [] = Some (no_food, []) /\
  length (body overfull) = 1201%nat.
Proof.
  split; [vm_compute; reflexivity|].
  vm_compute; reflexivity.
Qed.


(* ------------------------------------------------------------------ *)
(** ** The high-score file *)

Lemma digit_of_digit_char (d : Z) :
  0 <= d <= 9 -> digit_of (digit_char d) = Some d.
Proof.
  intros H.
  assert (C : d = 0 \/ d = 1 \/ d = 2 \/ d = 3 \/ d = 4 \/ d = 5 \/ d = 6
              \/ d = 7 \/ d = 8 \/ d = 9) by lia.
  repeat (destruct C as [-> | C]; [reflexivity|]). subst d. reflexivity.
Qed.

Lemma digit_char_plain (d : Z) :
  0 <= d <= 9 ->
  is_space (digit_char d) = false /\
  Ascii.eqb (digit_char d) "-" = false /\
  Ascii.eqb (digit_char d) "+" = false.
Proof.
  intros H.
  assert (C : d = 0 \/ d = 1 \/ d = 2 \/ d = 3 \/ d = 4 \/ d = 5 \/ d = 6
              \/ d = 7 \/ d = 8 \/ d = 9) by lia.
  repeat (destruct C as [-> | C]; [repeat split; reflexivity|]).
  subst d. repeat split; reflexivity.
Qed.

(** Reading back the digits written for [n] continues from [acc * 10^k + n]
    for the number [k] of digits written. *)
Lemma read_digits_onto (fuel : nat) :
  forall (n : Z) (rest : string) (acc : Z),
    0 <= n < 10 ^ Z.of_nat fuel ->
    exists k : Z,
      0 <= k /\
      read_digits acc (digits_onto fuel n rest) =
      read_digits (acc * 10 ^ k + n) rest.
Proof.
  induction fuel as [|fuel IH]; intros n rest acc Hn.
  - exists 0. cbn [digits_onto]. split; [lia|].
    change (10 ^ Z.of_nat 0) with 1 in Hn. f_equal; lia.
  - cbn [digits_onto].
    assert (Hd : 0 <= n mod 10 <= 9)
      by (pose proof (Z.mod_pos_bound n 10); lia).
    destruct (n <? 10) eqn:E.
    + apply Z.ltb_lt in E. exists 1. split; [lia|].
      cbn [read_digits]. rewrite (digit_of_digit_char _ Hd).
      rewrite Z.mod_small by lia. f_equal; lia.
    + apply Z.ltb_ge in E.
      assert (Hq : 0 <= n / 10 < 10 ^ Z.of_nat fuel).
      { split; [apply Z.div_pos; lia|].
        apply Z.div_lt_upper_bound; [lia|].
        rewrite Nat2Z.inj_succ, Z.pow_succ_r in Hn by lia. lia. }
      destruct (IH (n / 10) (String (digit_char (n mod 10)) rest) acc Hq)
        as (k & Hk & Ek).
      exists (k + 1). split; [lia|]. rewrite Ek.
      cbn [read_digits]. rewrite (digit_of_digit_char _ Hd). f_equal.
      rewrite Z.pow_add_r by lia.
      pose proof (Z.div_mod n 10 ltac:(lia)). lia.
Qed.

(** The digits written for a number start with a digit. *)
Lemma digits_onto_head (fuel : nat) :
  forall (n : Z) (rest : string),
    0 <= n ->
    exists (d : Z) (tail : string),
      0 <= d <= 9 /\
      digits_onto (S fuel) n rest = String (digit_char d) tail.
Proof.
  induction fuel as [|fuel IH]; intros n rest Hn.
  - assert (Hd : 0 <= n mod 10 <= 9)
      by (pose proof (Z.mod_pos_bound n 10); lia).
    exists (n mod 10), rest. split; [exact Hd|].
    cbn [digits_onto]. destruct (n <? 10); reflexivity.
  - assert (Hd : 0 <= n mod 10 <= 9)
      by (pose proof (Z.mod_pos_bound n 10); lia).
    change (digits_onto (S (S fuel)) n rest)
      with (if n <? 10 then String (digit_char (n mod 10)) rest
            else digits_onto (S fuel) (n / 10)
                   (String (digit_char (n mod 10)) rest)).
    destruct (n <? 10).
    + exists (n mod 10), rest. auto.
    + apply IH. apply Z.div_pos; lia.
Qed.

Lemma digits_onto_app (fuel : nat) :
  forall (n : Z) (acc rest : string),
    (digits_onto fuel n acc ++ rest)%string =
    digits_onto fuel n (acc ++ rest)%string.
Proof.
  induction fuel as [|fuel IH]; intros n acc rest; cbn [digits_onto];
    [reflexivity|].
  destruct (n <? 10); [reflexivity|]. now rewrite IH.
Qed.

Lemma read_digits_stop (v : Z) (rest : string) :
  no_digit_ahead rest -> read_digits v rest = v.
Proof.
  destruct rest as [|c rest]; cbn; [reflexivity|]. now intros ->.
Qed.

Lemma skip_ws_app (ws t : string) :
  all_space ws = true -> skip_ws (ws ++ t)%string = skip_ws t.
Proof.
  induction ws as [|c ws IH]; cbn; [reflexivity|].
  intros H. apply andb_true_iff in H. destruct H as [Hc Hws].
  rewrite Hc. apply IH, Hws.
Qed.

(** The digits of [n] followed by anything that is not a digit are read
    back as [n]. *)
Lemma extract_digits (n : Z) (rest : string) :
  0 <= n <= 2 ^ 31 -> no_digit_ahead rest ->
  exists (d : Z) (tail : string),
    0 <= d <= 9 /\
    digits_onto 10 n rest = String (digit_char d) tail /\
    read_digits 0 (digits_onto 10 n rest) = n.
Proof.
  intros Hn Hrest.
  destruct (digits_onto_head 9 n rest ltac:(lia)) as (d & tail & Hd & E).
  destruct (read_digits_onto 10 n rest 0 ltac:(cbn; lia)) as (k & _ & Ek).
  rewrite Z.mul_0_l, Z.add_0_l, (read_digits_stop n rest Hrest) in Ek.
  exists d, tail. auto.
Qed.

(** White space, then what [out << n] writes, then anything that does not
    continue the number: [in >> h] reads [n]. *)
Lemma extract_padded (n : Z) (ws rest : string) :
  INT_MIN <= n <= INT_MAX -> all_space ws = true -> no_digit_ahead rest ->
  extract_int (ws ++ insert_int n ++ rest) = Some n.
Proof.
  intros Hn Hws Hrest. unfold INT_MIN, INT_MAX in Hn.
  assert (Hrange : (INT_MIN <=? n) && (n <=? INT_MAX) = true).
  { apply andb_true_iff. unfold INT_MIN, INT_MAX.
    split; apply Z.leb_le; lia. }
  unfold extract_int. rewrite (skip_ws_app ws _ Hws).
  unfold insert_int. destruct (n <? 0) eqn:Eneg.
  - apply Z.ltb_lt in Eneg.
    destruct (extract_digits (- n) rest ltac:(lia) Hrest)
      as (d & tail & Hd & E & Er).
    cbn [append skip_ws]. change (is_space "-") with false. cbv iota.
    change (Ascii.eqb "-" "-") with true. cbv iota.
    rewrite digits_onto_app. cbn [append].
    rewrite E in *. rewrite (digit_of_digit_char d Hd), Er.
    rewrite Z.opp_involutive, Hrange. reflexivity.
  - apply Z.ltb_ge in Eneg.
    destruct (extract_digits n rest ltac:(lia) Hrest)
      as (d & tail & Hd & E & Er).
    destruct (digit_char_plain d Hd) as (Hsp & Hm & Hp).
    rewrite digits_onto_app. cbn [append].
    rewrite E in *. cbn [skip_ws]. rewrite Hsp, Hm, Hp.
    rewrite (digit_of_digit_char d Hd), Er, Hrange. reflexivity.
Qed.

Lemma append_empty_r (s : string) : (s ++ "")%string = s.
Proof. induction s as [|c s IH]; cbn; [reflexivity | now rewrite IH]. Qed.

(** What [out << n] writes, [in >> h] reads back. *)
Lemma extract_insert (n : Z) :
  INT_MIN <= n <= INT_MAX -> extract_int (insert_int n) = Some n.
Proof.
  intros Hn.
  pose proof (extract_padded n "" "" Hn eq_refl I) as H.
  cbn [append] in H. now rewrite append_empty_r in H.
Qed.

Lemma extract_int_range (content : string) (v : Z) :
  extract_int content = Some v -> INT_MIN <= v <= INT_MAX.
Proof.
  unfold extract_int.
  destruct (match skip_ws content with
            | String c rest =>
                if Ascii.eqb c "-" then (true, rest)
                else if Ascii.eqb c "+" then (false, rest)
                else (false, skip_ws content)
            | EmptyString => (false, skip_ws content)
            end) as [negative s2].
  destruct s2 as [|c rest]; [discriminate|].
  destruct (digit_of c); [|discriminate].
  cbv zeta.
  generalize (if negative then - read_digits 0 (String c rest)
              else read_digits 0 (String c rest)).
  intros w.
  destruct ((INT_MIN <=? w) && (w <=? INT_MAX)) eqn:E; [|discriminate].
  intros H; injection H as <-.
  apply andb_true_iff in E. destruct E as [E1 E2].
  apply Z.leb_le in E1, E2. lia.
Qed.

Lemma fs_read_write (fs : list (string * string)) (path content : string) :
  fs_read (fs_write fs path content) path = Some content.
Proof.
  induction fs as [|[name old] fs IH]; cbn [fs_write fs_read].
  - now rewrite String.eqb_refl.
  - destruct (String.eqb name path) eqn:E; cbn [fs_read]; rewrite E; auto.
Qed.

Lemma fs_read_holds (fs : list (string * string)) (file content : string) :
  holds fs file content -> fs_read fs file = Some content.
Proof.
  induction 1 as [fs file content | fs name old file content NE _ IH];
    cbn [fs_read].
  - now rewrite String.eqb_refl.
  - apply String.eqb_neq in NE. now rewrite NE.
Qed.

Lemma fs_read_missing (fs : list (string * string)) (file : string) :
  (forall content : string, ~ In (file, content) fs) ->
  fs_read fs file = None.
Proof.
  induction fs as [|[name old] fs IH]; intros H; cbn [fs_read];
    [reflexivity|].
  destruct (String.eqb name file) eqn:E.
  - apply String.eqb_eq in E. subst name.
    exfalso. apply (H old). now left.
  - apply IH. intros content Hin. apply (H content). now right.
Qed.

Lemma fs_read_Some (fs : list (string * string)) (file content : string) :
  fs_read fs file = Some content -> holds fs file content.
Proof.
  induction fs as [|[name old] fs IH]; cbn [fs_read]; [discriminate|].
  destruct (String.eqb name file) eqn:E.
  - apply String.eqb_eq in E. subst name.
    intros H; injection H as <-. constructor.
  - apply String.eqb_neq in E. intros H. constructor; auto.
Qed.

Lemma fs_read_None (fs : list (string * string)) (file : string) :
  fs_read fs file = None -> forall content : string, ~ In (file, content) fs.
Proof.
  induction fs as [|[name old] fs IH]; cbn [fs_read]; intros H content Hin.
  - exact Hin.
  - destruct (String.eqb name file) eqn:E; [discriminate|].
    apply String.eqb_neq in E.
    destruct Hin as [Hin|Hin]; [injection Hin as -> _; now apply E|].
    exact (IH H content Hin).
Qed.

(** A digit is neither white space nor a sign, and [digit_of] gives its
    value. *)
Lemma digit_plain (c : ascii) (d : Z) :
  digit_of c = Some d ->
  d = digit_value c /\ is_space c = false /\
  Ascii.eqb c "-" = false /\ Ascii.eqb c "+" = false.
Proof.
  destruct c as [[] [] [] [] [] [] [] []]; cbv; intros H;
    try discriminate H; injection H as <-; auto.
Qed.

Lemma read_digits_value (ds : string) :
  forall (acc : Z) (rest : string),
    all_digits ds = true ->
    read_digits acc (ds ++ rest) =
    read_digits (acc * 10 ^ Z.of_nat (String.length ds) + decimal_value ds)
                rest.
Proof.
  induction ds as [|c ds IH]; intros acc rest H.
  - cbn [append String.length decimal_value]. f_equal. cbn. lia.
  - cbn [all_digits] in H. destruct (digit_of c) as [d|] eqn:E;
      [|discriminate].
    destruct (digit_plain c d E) as [Hd _].
    cbn [append read_digits]. rewrite E, (IH _ _ H). f_equal.
    cbn [String.length decimal_value].
    rewrite Nat2Z.inj_succ, Z.pow_succ_r by lia. subst d. ring.
Qed.

Lemma skip_ws_plain (s : string) :
  match s with
  | EmptyString => True
  | String c _ => is_space c = false
  end -> skip_ws s = s.
Proof. destruct s as [|c s]; cbn [skip_ws]; [reflexivity|]. now intros ->. Qed.

(** What [in >> h] does with a content of each of the three shapes. *)
Lemma extract_number (content ws sgn ds rest : string) :
  number_shape content ws sgn ds rest ->
  extract_int content =
  let v := signed sgn (decimal_value ds) in
  if (INT_MIN <=? v) && (v <=? INT_MAX) then Some v else None.
Proof.
  intros (-> & Hws & Hsgn & Hne & Hds & Hrest).
  destruct ds as [|c ds]; [now contradiction Hne|].
  pose proof Hds as Hc. cbn [all_digits] in Hc.
  destruct (digit_of c) as [d|] eqn:E; [|discriminate].
  destruct (digit_plain c d E) as (_ & Hsp & Hm & Hp).
  pose proof (read_digits_value (String c ds) 0 rest Hds) as Hv.
  rewrite (read_digits_stop _ rest Hrest), Z.mul_0_l, Z.add_0_l in Hv.
  unfold extract_int. rewrite (skip_ws_app ws _ Hws).
  destruct Hsgn as [-> | [-> | ->]]; cbn [append skip_ws].
  - rewrite Hsp, Hm, Hp, E.
    change (String c (ds ++ rest)) with (String c ds ++ rest)%string.
    rewrite Hv. reflexivity.
  - change (is_space "+") with false. cbv iota.
    change (Ascii.eqb "+" "-") with false.
    change (Ascii.eqb "+" "+") with true. cbv iota. rewrite E.
    change (String c (ds ++ rest)) with (String c ds ++ rest)%string.
    rewrite Hv. reflexivity.
  - change (is_space "-") with false. cbv iota.
    change (Ascii.eqb "-" "-") with true. cbv iota. rewrite E.
    change (String c (ds ++ rest)) with (String c ds ++ rest)%string.
    rewrite Hv. reflexivity.
Qed.

Lemma extract_blank (content ws rest : string) :
  blank_shape content ws rest -> extract_int content = None.
Proof.
  intros (-> & Hws & Hrest).
  unfold extract_int. rewrite (skip_ws_app ws _ Hws).
  destruct rest as [|c rest]; [reflexivity|].
  destruct Hrest as (Hsp & Hm & Hp & Hd).
  apply Ascii.eqb_neq in Hm, Hp.
  cbn [skip_ws]. rewrite Hsp, Hm, Hp, Hd. reflexivity.
Qed.

Lemma extract_lone_sign (content ws : string) (c : ascii) (rest : string) :
  lone_sign_shape content ws c rest -> extract_int content = None.
Proof.
  intros (-> & Hws & Hc & Hrest).
  unfold extract_int. rewrite (skip_ws_app ws _ Hws).
  assert (Hno : match rest with
                | String c' _ =>
                    match digit_of c' with Some _ => false | None => true end
                | EmptyString => true
                end = true).
  { destruct rest as [|c' rest]; [reflexivity|].
    cbn in Hrest. now rewrite Hrest. }
  destruct Hc as [-> | ->]; cbn [skip_ws].
  - change (is_space "-") with false. cbv iota.
    change (Ascii.eqb "-" "-") with true. cbv iota.
    destruct rest as [|c' rest]; [reflexivity|].
    destruct (digit_of c'); [discriminate | reflexivity].
  - change (is_space "+") with false. cbv iota.
    change (Ascii.eqb "+" "-") with false.
    change (Ascii.eqb "+" "+") with true. cbv iota.
    destruct rest as [|c' rest]; [reflexivity|].
    destruct (digit_of c'); [discriminate | reflexivity].
Qed.

Lemma split_space (s : string) :
  exists ws t : string,
    s = (ws ++ t)%string /\ all_space ws = true /\
    match t with
    | EmptyString => True
    | String c _ => is_space c = false
    end.
Proof.
  induction s as [|c s (ws & t & E & Hws & Ht)].
  - exists ""%string, ""%string. auto.
  - destruct (is_space c) eqn:Ec.
    + exists (String c ws), t. cbn [append all_space].
      rewrite Ec, Hws, E. auto.
    + exists ""%string, (String c s). auto.
Qed.

Lemma split_digits (s : string) :
  exists ds rest : string,
    s = (ds ++ rest)%string /\ all_digits ds = true /\ no_digit_ahead rest.
Proof.
  induction s as [|c s (ds & rest & E & Hds & Hrest)].
  - exists ""%string, ""%string. cbn. auto.
  - destruct (digit_of c) as [d|] eqn:Ec.
    + exists (String c ds), rest. cbn [append all_digits].
      rewrite Ec, E. auto.
    + exists ""%string, (String c s). cbn. auto.
Qed.

(** Every content has one of the three shapes. *)
Lemma content_shapes (content : string) :
  (exists ws sgn ds rest, number_shape content ws sgn ds rest) \/
  (exists ws rest, blank_shape content ws rest) \/
  (exists ws c rest, lone_sign_shape content ws c rest).
Proof.
  destruct (split_space content) as (ws & t & -> & Hws & Ht).
  destruct t as [|c t].
  { right; left. exists ws, ""%string. repeat split; auto. }
  destruct (Ascii.eqb_spec c "-") as [-> | Hm];
    [|destruct (Ascii.eqb_spec c "+") as [-> | Hp]].
  - destruct (split_digits t) as (ds & rest & -> & Hds & Hrest).
    destruct ds as [|c' ds].
    + right; right. exists ws, "-"%char, rest. repeat split; auto.
    + left. exists ws, "-"%string, (String c' ds), rest.
      repeat split; auto; [right; right; reflexivity | discriminate].
  - destruct (split_digits t) as (ds & rest & -> & Hds & Hrest).
    destruct ds as [|c' ds].
    + right; right. exists ws, "+"%char, rest. repeat split; auto.
    + left. exists ws, "+"%string, (String c' ds), rest.
      repeat split; auto; [right; left; reflexivity | discriminate].
  - destruct (digit_of c) as [d|] eqn:Ec.
    + destruct (split_digits (String c t)) as (ds & rest & E & Hds & Hrest).
      destruct ds as [|c' ds].
      * cbn [append] in E. subst rest. cbn in Hrest. congruence.
      * left. exists ws, ""%string, (String c' ds), rest.
        repeat split; auto; [now rewrite E | now left | discriminate].
    + right; left. exists ws, (String c t). repeat split; auto.
Qed.

Lemma decimal_integer_shape (content : string) :
  decimal_integer content = true ->
  exists sgn ds : string,
    number_shape content "" sgn ds "" /\
    signed sgn (decimal_value ds) = decimal_integer_value content.
Proof.
  destruct content as [|c t]; [discriminate|].
  unfold decimal_integer, decimal_integer_value.
  destruct (Ascii.eqb_spec c "-") as [-> | Hm]; intros H.
  - apply andb_true_iff in H. destruct H as [Hne Hds].
    exists "-"%string, t. split; [|reflexivity].
    repeat split; auto.
    + cbn [append]. now rewrite append_empty_r.
    + right; right; reflexivity.
    + intros ->. discriminate Hne.
  - exists ""%string, (String c t). split; [|reflexivity].
    repeat split; auto.
    + cbn [append]. now rewrite append_empty_r.
    + now left.
    + discriminate.
Qed.

(** C8 (as amended): [loadHighscore] returns what the stream extraction
    reads at the start of the file.  It returns 0 when no file has the
    given name.  When the file holds white space, an optional sign and a
    run of decimal digits, followed by anything that is not a digit, it
    returns the number the sign and the digits denote if that number fits
    an [int], and 0 if it does not; what follows the digits is ignored.
    It returns 0 when there is no number after the white space, and when a
    sign is not followed by a digit.  Every file content has one of these
    three shapes.  So a file that holds a decimal integer and nothing else
    gives that integer when it fits an [int], what [saveHighscore] writes
    for an [int] is read back, and the result is always an [int]. *)
Theorem loadHighscore_spec (d : Disk) (path : string) :
  (file_missing d path -> loadHighscore d path = 0) /\
  (forall content ws sgn ds rest : string,
      file_holds d path content ->
      number_shape content ws sgn ds rest ->
      loadHighscore d path = int_or_zero (signed sgn (decimal_value ds))) /\
  (forall content ws rest : string,
      file_holds d path content -> blank_shape content ws rest ->
      loadHighscore d path = 0) /\
  (forall (content ws : string) (c : ascii) (rest : string),
      file_holds d path content -> lone_sign_shape content ws c rest ->
      loadHighscore d path = 0) /\
  (file_missing d path \/
   exists content : string,
     file_holds d path content /\
     ((exists ws sgn ds rest, number_shape content ws sgn ds rest) \/
      (exists ws rest, blank_shape content ws rest) \/
      (exists ws c rest, lone_sign_shape content ws c rest))) /\
  (forall content : string,
      file_holds d path content -> decimal_integer content = true ->
      loadHighscore d path = int_or_zero (decimal_integer_value content)) /\
  (forall n : Z,
      INT_MIN <= n <= INT_MAX -> file_holds d path (insert_int n) ->
      loadHighscore d path = n) /\
  INT_MIN <= loadHighscore d path <= INT_MAX.
Proof.
  assert (Hnum : forall content ws sgn ds rest : string,
             file_holds d path content ->
             number_shape content ws sgn ds rest ->
             loadHighscore d path =
             int_or_zero (signed sgn (decimal_value ds))).
  { intros content ws sgn ds rest Hf Hshape.
    unfold loadHighscore. rewrite (fs_read_holds _ _ _ Hf).
    rewrite (extract_number _ _ _ _ _ Hshape). unfold int_or_zero.
    cbv zeta.
    destruct ((INT_MIN <=? signed sgn (decimal_value ds)) &&
              (signed sgn (decimal_value ds) <=? INT_MAX)); reflexivity. }
  split; [|split; [exact Hnum|split; [|split; [|split; [|split; [|split]]]]]].
  - intros Hm. unfold loadHighscore.
    now rewrite (fs_read_missing _ _ Hm).
  - intros content ws rest Hf Hshape. unfold loadHighscore.
    rewrite (fs_read_holds _ _ _ Hf), (extract_blank _ _ _ Hshape).
    reflexivity.
  - intros content ws c rest Hf Hshape. unfold loadHighscore.
    rewrite (fs_read_holds _ _ _ Hf), (extract_lone_sign _ _ _ _ Hshape).
    reflexivity.
  - destruct (fs_read (files d) (resolve d path)) as [content|] eqn:E.
    + right. exists content. split; [exact (fs_read_Some _ _ _ E)|].
      apply content_shapes.
    + left. exact (fs_read_None _ _ E).
  - intros content Hf Hdec.
    destruct (decimal_integer_shape content Hdec) as (sgn & ds & Hs & <-).
    exact (Hnum content _ sgn ds _ Hf Hs).
  - intros n Hn Hf. unfold loadHighscore.
    now rewrite (fs_read_holds _ _ _ Hf), (extract_insert n Hn).
  - unfold loadHighscore.
    destruct (fs_read (files d) (resolve d path)) as [content|];
      [|cbv; split; discriminate].
    destruct (extract_int content) as [v|] eqn:E; [|cbv; split; discriminate].
    apply (extract_int_range content v E).
Qed.

(** The theorem at a disk with two files, where ["./highscore.txt"] names
    the second one, which holds ["  -42 points"]. *)
Lemma loadHighscore_spec_witness :
  loadHighscore
    (mkDisk drop_dot_slash
       [("notes.txt", "7"); (default_path, "  -42 points")]%string true [])
    "./highscore.txt" = -42.
Proof.
  apply (proj1 (proj2 (loadHighscore_spec
                         (mkDisk drop_dot_slash
                            [("notes.txt", "7");
                             (default_path, "  -42 points")]%string true [])
                         "./highscore.txt"))
           "  -42 points" "  " "-" "42" " points")%string.
  - apply holds_later; [discriminate | apply holds_here].
  - repeat split; auto; [right; right; reflexivity | discriminate].
Defined.

(** Against C8 as stated: a file whose content is not a decimal integer
    does not always give 0.  ["42xyz"] and ["12.5"] are malformed, and the
    extraction reads the digits they start with. *)
Lemma malformed_file_is_not_zero :
  let d := mkDisk own_file
             [(default_path, "42xyz"); ("other.txt", "12.5")]%string
             true [] in
  file_holds d default_path "42xyz" /\
  decimal_integer "42xyz" = false /\
  loadHighscore d default_path = 42 /\
  file_holds d "other.txt" "12.5" /\
  decimal_integer "12.5" = false /\
  loadHighscore d "other.txt" = 12.
Proof.
  cbv zeta. split; [apply holds_here|].
  split; [reflexivity|]. split; [reflexivity|].
  split; [apply holds_later; [discriminate | apply holds_here]|].
  split; reflexivity.
Qed.

(** Saving and loading again gives the saved number when the file can be
    written. *)
Lemma save_then_load (d : Disk) (path : string) (n : Z) :
  writable d = true -> INT_MIN <= n <= INT_MAX ->
  loadHighscore (saveHighscore n path d) path = n.
Proof.
  intros Hw Hn. unfold loadHighscore, saveHighscore. cbn [files resolve].
  rewrite Hw, fs_read_write, (extract_insert n Hn). reflexivity.
Qed.

Example load_missing : loadHighscore (mkDisk own_file [] true []) default_path = 0.
Proof. reflexivity. Qed.

Example load_150 :
  loadHighscore (saveHighscore 150 default_path (mkDisk own_file [] true []))
    default_path = 150.
Proof. reflexivity. Qed.

Example load_words :
  loadHighscore (mkDisk own_file [(default_path, "high score"%string)] true [])
    default_path = 0.
Proof. reflexivity. Qed.

Example load_too_large :
  loadHighscore (mkDisk own_file [(default_path, "99999999999"%string)] true [])
    default_path = 0.
Proof. reflexivity. Qed.

Example load_padded :
  loadHighscore (mkDisk own_file [(default_path, "  42 points"%string)] true [])
    default_path = 42.
Proof. reflexivity. Qed.

(* ------------------------------------------------------------------ *)
(** ** Score and tick interval *)

Lemma delay_after_floor (n : nat) :
  (28 <= n)%nat -> delay_after n = f0_03.
Proof.
  induction 1 as [|n _ IH].
  - vm_compute. reflexivity.
  - cbn [delay_after]. rewrite IH. vm_compute. reflexivity.
Qed.






Section PaceProps.
Context {G : Generator}.

Lemma tick_meal (fuel : nat) (gm gm' : Game) :
  tick fuel gm = Some gm' ->
  (score gm' = score gm + 10 /\ moveDelay gm' = speed_up (moveDelay gm) /\
   front (body (snake gm')) = food gm /\ grow (snake gm') = true) \/
  (score gm' = score gm /\ moveDelay gm' = moveDelay gm /\
   food gm' = food gm).
Proof.
  rewrite tick_cases.
  destruct (negb (collided gm) && Veqb _ _) eqn:Eat.
  - destruct (spawnFood _ _ _) as [[f g']|]; [|discriminate].
    intros E; injection E as <-. left. cbn.
    apply andb_true_iff in Eat. destruct Eat as [_ Eat].
    apply Veqb_eq in Eat. auto.
  - intros E; injection E as <-. right. cbn. auto.
Qed.

Lemma paced_tick (fuel : nat) (gm gm' : Game) :
  paced gm -> tick fuel gm = Some gm' -> paced gm'.
Proof.
  intros (n & Hs & Hd) Ht.
  destruct (tick_meal fuel gm gm' Ht) as [(Hs' & Hd' & _) | (Hs' & Hd' & _)].
  - exists (S n). rewrite Hs', Hd', Hs, Hd. split; [lia | reflexivity].
  - exists n. rewrite Hs', Hd'. auto.
Qed.

Lemma paced_fresh_session (gm : Game) :
  score gm = 0 -> moveDelay gm = f0_12 -> paced gm.
Proof. intros Hs Hd. exists 0%nat. auto. Qed.

Lemma paced_handle_event (fuel : nat) (ev : Event) (gm gm' : Game) :
  paced gm -> handle_event fuel ev gm = Some gm' -> paced gm'.
Proof.
  intros Hp. destruct ev as [|code|]; cbn [handle_event].
  - intros E; injection E as <-. exact Hp.
  - destruct (gameOver gm && Keyboard.eqb code Keyboard.R).
    + destruct (spawnFood _ _ _) as [[f g']|]; [|discriminate].
      intros E; injection E as <-. now apply paced_fresh_session.
    + intros E; injection E as <-. exact Hp.
  - intros E; injection E as <-. exact Hp.
Qed.

Lemma paced_poll_events (fuel : nat) (evs : list Event) (gm gm' : Game) :
  paced gm -> poll_events fuel evs gm = Some gm' -> paced gm'.
Proof.
  revert gm. induction evs as [|ev evs IH]; intros gm Hp; cbn [poll_events].
  - intros E; injection E as <-. exact Hp.
  - destruct (handle_event fuel ev gm) as [gm1|] eqn:E1; [|discriminate].
    apply IH. eapply paced_handle_event; eauto.
Qed.

Lemma paced_frame (fuel : nat) (evs : list Event) (dt : float)
    (gm gm' : Game) :
  paced gm -> frame fuel evs dt gm = Some gm' -> paced gm'.
Proof.
  intros Hp Hf.
  destruct (frame_inv fuel evs dt gm gm' Hf) as (gm1 & gm2 & He & Hs & ->).
  assert (H1 : paced gm1) by (eapply paced_poll_events; eauto).
  assert (H2 : paced gm2).
  { unfold simulate in Hs.
    destruct (negb (gameOver (charge dt gm1)) && fleb _ _).
    - eapply paced_tick; [|exact Hs]. exact H1.
    - injection Hs as <-. exact H1. }
  unfold record_highscore.
  destruct (gameOver gm2 && (score gm2 >? highscore gm2)); exact H2.
Qed.

Lemma paced_run (fuel : nat) (inputs : list (list Event * float))
    (gm gm' : Game) :
  paced gm -> run fuel inputs gm = Some gm' -> paced gm'.
Proof.
  revert gm. induction inputs as [|[evs dt] rest IH]; intros gm Hp;
    cbn [run].
  - intros E; injection E as <-. exact Hp.
  - destruct (window_open gm).
    + destruct (frame fuel evs dt gm) as [gm1|] eqn:E1; [|discriminate].
      apply IH. eapply paced_frame; eauto.
    + intros E; injection E as <-. exact Hp.
Qed.

Lemma paced_start (fuel : nat) (g : rng) (d : Disk) (gm : Game) :
  start fuel g d = Some gm -> paced gm.
Proof.
  unfold start. destruct (spawnFood _ _ _) as [[f g']|]; [|discriminate].
  intros E; injection E as <-. now apply paced_fresh_session.
Qed.

End PaceProps.


(** The rule on the way to the wall: with the food at (21,15) one of the
    twenty steps eats, the first. *)
Example one_meal_on_the_way :
  eats food_ahead = true /\ meals 5 20 food_ahead = 1%nat /\
  option_map score (ticks 5 20 food_ahead) = Some 10 /\
  option_map moveDelay (ticks 5 20 food_ahead) = Some (delay_after 1).
Proof. repeat split; vm_compute; reflexivity. Qed.


(* ------------------------------------------------------------------ *)
(** ** The snake of a running session

    While a session is being played the snake lies inside the grid and no
    two of its segments share a cell; these are the snakes that [main]
    hands to [spawnFood]. *)

Lemma NoDup_removelast (A : Type) (l : list A) :
  NoDup l -> NoDup (removelast l).
Proof.
  destruct l as [|a l]; [auto|]. intros H.
  assert (NE : a :: l <> []) by discriminate.
  rewrite (app_removelast_last a NE) in H.
  apply NoDup_app_remove_r in H. exact H.
Qed.

Lemma valid_snake_reset : valid_snake resetGame.
Proof.
  split; [discriminate|]. split.
  - repeat constructor.
  - repeat constructor. intros [].
Qed.

Section ValidSnake.
Context {G : Generator}.

Lemma valid_snake_move (gm : Game) :
  valid_snake (snake gm) -> collided gm = false ->
  valid_snake (move (snake gm)).
Proof.
  intros (NE & Hin & Hnd) Hc.
  pose proof (move_body (snake gm) NE) as B.
  unfold collided in Hc.
  destruct (hitsSelf (move (snake gm))) eqn:Hs; [discriminate|].
  match type of Hc with
  | (if ?t then _ else _) = _ => destruct t eqn:Hw; [discriminate|]
  end.
  assert (Hhead : inside (front (body (move (snake gm)))) = true).
  { unfold inside. now rewrite Hw. }
  unfold hitsSelf in Hs. unfold valid_snake. rewrite B in Hs, Hhead |- *.
  cbn [tl front hd] in Hs, Hhead. apply scan_from_not_In in Hs.
  split; [discriminate|]. split.
  - constructor; [exact Hhead|].
    destruct (grow (snake gm)); [exact Hin|].
    rewrite Forall_forall in *. intros p Hp. apply Hin, In_removelast, Hp.
  - constructor; [exact Hs|].
    destruct (grow (snake gm)); [exact Hnd | apply NoDup_removelast, Hnd].
Qed.

(** Every step that leaves the session running leaves a valid snake, and
    the snake handed to [spawnFood] by the eating rule is valid. *)
Lemma tick_keeps_valid (fuel : nat) (gm gm' : Game) :
  valid_snake (snake gm) -> tick fuel gm = Some gm' ->
  gameOver gm' = false -> valid_snake (snake gm').
Proof.
  intros Hv Ht Hplay. rewrite tick_cases in Ht.
  destruct (negb (collided gm) && Veqb _ _) eqn:Eat.
  - destruct (spawnFood _ _ _) as [[f g']|]; [|discriminate].
    injection Ht as <-. cbn [snake].
    apply andb_true_iff in Eat. destruct Eat as [Eat _].
    apply negb_true_iff in Eat. exact (valid_snake_move gm Hv Eat).
  - injection Ht as <-. cbn [moved gameOver snake] in *.
    exact (valid_snake_move gm Hv Hplay).
Qed.

Lemma playing_valid_handle_event (fuel : nat) (ev : Event) (gm gm' : Game) :
  playing_valid gm -> handle_event fuel ev gm = Some gm' -> playing_valid gm'.
Proof.
  intros Hp. destruct ev as [|code|]; cbn [handle_event].
  - intros E; injection E as <-. exact Hp.
  - destruct (gameOver gm) eqn:Hover; cbn [andb negb].
    + destruct (Keyboard.eqb code Keyboard.R).
      * destruct (spawnFood _ _ _) as [[f g']|]; [|discriminate].
        intros E; injection E as <-. intros _. apply valid_snake_reset.
      * intros E; injection E as <-. intros H. cbn in H. congruence.
    + intros E; injection E as <-. intros _. exact (Hp Hover).
  - intros E; injection E as <-. exact Hp.
Qed.

Lemma playing_valid_frame (fuel : nat) (evs : list Event) (dt : float)
    (gm gm' : Game) :
  playing_valid gm -> frame fuel evs dt gm = Some gm' -> playing_valid gm'.
Proof.
  intros Hp Hf.
  destruct (frame_inv fuel evs dt gm gm' Hf) as (gm1 & gm2 & He & Hs & ->).
  assert (H1 : playing_valid gm1).
  { clear Hs Hf. revert gm Hp He.
    induction evs as [|ev evs IH]; intros gm Hp; cbn [poll_events].
    - intros E; injection E as <-. exact Hp.
    - destruct (handle_event fuel ev gm) as [gm0|] eqn:E0; [|discriminate].
      apply IH. eapply playing_valid_handle_event; eauto. }
  assert (H2 : playing_valid gm2).
  { unfold simulate in Hs.
    destruct (negb (gameOver (charge dt gm1))) eqn:Hplay; cbn [andb] in Hs.
    - apply negb_true_iff in Hplay.
      destruct (fleb _ _).
      + intros Hplay2.
        apply (tick_keeps_valid fuel (discharge (charge dt gm1)) gm2);
          auto.
      + injection Hs as <-. exact H1.
    - injection Hs as <-. exact H1. }
  unfold record_highscore.
  destruct (gameOver gm2 && (score gm2 >? highscore gm2)) eqn:E; [|exact H2].
  intros H. cbn in H. apply andb_true_iff in E. destruct E. congruence.
Qed.

Lemma playing_valid_run (fuel : nat) (inputs : list (list Event * float))
    (gm gm' : Game) :
  playing_valid gm -> run fuel inputs gm = Some gm' -> playing_valid gm'.
Proof.
  revert gm. induction inputs as [|[evs dt] rest IH]; intros gm Hp;
    cbn [run].
  - intros E; injection E as <-. exact Hp.
  - destruct (window_open gm).
    + destruct (frame fuel evs dt gm) as [gm1|] eqn:E1; [|discriminate].
      apply IH. eapply playing_valid_frame; eauto.
    + intros E; injection E as <-. exact Hp.
Qed.

Lemma playing_valid_start (fuel : nat) (g : rng) (d : Disk) (gm : Game) :
  start fuel g d = Some gm -> playing_valid gm.
Proof.
  unfold start. destruct (spawnFood _ _ _) as [[f g']|]; [|discriminate].
  intros E; injection E as <-. intros _. apply valid_snake_reset.
Qed.

End ValidSnake.

(* ------------------------------------------------------------------ *)
(** ** No integer overflow

    The model computes in [Z] where the program computes in [int].  The two
    agree because every number the program holds stays small. *)

Section Bounds.
Context {G : Generator}.

Lemma in_bounds_fresh (gm : Game) :
  snake gm = resetGame -> score gm = 0 -> in_bounds gm.
Proof.
  intros Hs Hsc. unfold in_bounds, playing_valid. rewrite Hs, Hsc.
  split; [right; right; right; reflexivity|]. split; [discriminate|].
  split; [repeat constructor; cbn; unfold COLS, ROWS; lia|].
  split; [reflexivity|]. split; [cbn; unfold COLS, ROWS; lia|].
  intros _. apply valid_snake_reset.
Qed.

Lemma in_bounds_handle_event (fuel : nat) (ev : Event) (gm gm' : Game) :
  in_bounds gm -> handle_event fuel ev gm = Some gm' -> in_bounds gm'.
Proof.
  intros Hb. destruct ev as [|code|]; cbn [handle_event].
  - intros E; injection E as <-. exact Hb.
  - destruct (gameOver gm) eqn:Hover; cbn [andb negb].
    + destruct (Keyboard.eqb code Keyboard.R).
      * destruct (spawnFood _ _ _) as [[f g']|]; [|discriminate].
        intros E; injection E as <-. now apply in_bounds_fresh.
      * intros E; injection E as <-.
        destruct Hb as (H1 & H2 & H3 & H4 & H5 & H6).
        do 5 (split; [assumption|]).
        intros Hp. cbn in Hp. congruence.
    + intros E; injection E as <-.
      destruct Hb as (H1 & H2 & H3 & H4 & H5 & H6).
      split; [apply steer_axis_step, H1|].
      do 4 (split; [assumption|]).
      intros _. exact (H6 Hover).
  - intros E; injection E as <-. exact Hb.
Qed.

Lemma in_bounds_tick (fuel : nat) (gm gm' : Game) :
  in_bounds gm -> gameOver gm = false -> tick fuel gm = Some gm' ->
  in_bounds gm'.
Proof.
  intros (Hd & _ & _ & Hsc & Hlen & Hv) Hplay Ht.
  destruct (Hv Hplay) as (NE & Hin & Hnd).
  pose proof (move_body (snake gm) NE) as B.
  pose proof (move_length (snake gm)) as L.
  assert (Hbody : Forall (fun p => -1 <= x p <= COLS /\ -1 <= y p <= ROWS)
                         (body (move (snake gm)))).
  { rewrite B. constructor.
    - unfold nextHead, Vadd.
      destruct (body (snake gm)) as [|h t]; [congruence|].
      apply Forall_inv in Hin. apply inside_iff in Hin.
      cbn [front hd x y].
      destruct Hd as [-> | [-> | [-> | ->]]]; cbn [x y]; lia.
    - rewrite Forall_forall in *. intros p Hp.
      assert (Hp' : In p (body (snake gm))).
      { destruct (grow (snake gm)); [exact Hp | apply In_removelast, Hp]. }
      specialize (Hin p Hp'). apply inside_iff in Hin. lia. }
  assert (Hsum : Z.of_nat (length (body (move (snake gm)))) =
                 Z.of_nat (length (body (snake gm)))
                 + (if grow (snake gm) then 1 else 0)).
  { rewrite L. destruct (grow (snake gm)); lia. }
  assert (Hvalid : forall g2 : Game,
             tick fuel gm = Some g2 -> playing_valid g2).
  { intros g2 E Hp2.
    apply (tick_keeps_valid fuel gm g2 (Hv Hplay) E Hp2). }
  specialize (Hvalid gm' Ht).
  rewrite tick_cases in Ht.
  destruct (negb (collided gm) && Veqb _ _) eqn:Eat.
  - destruct (spawnFood _ _ _) as [[f g']|]; [|discriminate].
    injection Ht as <-. unfold in_bounds in *.
    cbn [snake set_grow dir body grow score gameOver] in *.
    rewrite move_dir. split; [exact Hd|].
    split; [apply move_body_nonempty, NE|]. split; [exact Hbody|].
    split; [lia|]. split; [|exact Hvalid].
    destruct (Hvalid eq_refl) as [_ [Hin2 Hnd2]].
    pose proof (valid_snake_length
                  (set_grow true (move (snake gm))) Hin2 Hnd2) as Hle.
    cbn [set_grow body] in Hle. lia.
  - injection Ht as <-. unfold in_bounds in *.
    cbn [moved snake dir body grow score] in *.
    rewrite move_dir, move_grow. split; [exact Hd|].
    split; [apply move_body_nonempty, NE|]. split; [exact Hbody|].
    split; [lia|]. split; [lia | exact Hvalid].
Qed.

Lemma in_bounds_frame (fuel : nat) (evs : list Event) (dt : float)
    (gm gm' : Game) :
  in_bounds gm -> frame fuel evs dt gm = Some gm' -> in_bounds gm'.
Proof.
  intros Hb Hf.
  destruct (frame_inv fuel evs dt gm gm' Hf) as (gm1 & gm2 & He & Hs & ->).
  assert (H1 : in_bounds gm1).
  { clear Hs Hf. revert gm Hb He.
    induction evs as [|ev evs IH]; intros gm Hb; cbn [poll_events].
    - intros E; injection E as <-. exact Hb.
    - destruct (handle_event fuel ev gm) as [gm0|] eqn:E0; [|discriminate].
      apply IH. eapply in_bounds_handle_event; eauto. }
  assert (H2 : in_bounds gm2).
  { unfold simulate in Hs.
    destruct (negb (gameOver (charge dt gm1))) eqn:Hplay; cbn [andb] in Hs.
    - apply negb_true_iff in Hplay.
      destruct (fleb _ _).
      + apply (in_bounds_tick fuel (discharge (charge dt gm1)) gm2);
          auto.
      + injection Hs as <-. exact H1.
    - injection Hs as <-. exact H1. }
  unfold record_highscore.
  destruct (gameOver gm2 && (score gm2 >? highscore gm2)) eqn:E; [|exact H2].
  destruct H2 as (A1 & A2 & A3 & A4 & A5 & A6).
  do 5 (split; [assumption|]).
  intros Hp. cbn in Hp.
  apply andb_true_iff in E. destruct E. congruence.
Qed.

(** In every state of a run from the start of the program, coordinates
    lie between -1 and 40 (30), and the score between 0 and 12000. *)
Lemma run_in_bounds (fuel : nat) (g : rng) (d : Disk)
    (inputs : list (list Event * float)) (gm0 gm : Game) :
  start fuel g d = Some gm0 -> run fuel inputs gm0 = Some gm ->
  in_bounds gm /\ 0 <= score gm <= 12000.
Proof.
  intros Hs Hr.
  assert (H0 : in_bounds gm0).
  { unfold start in Hs.
    destruct (spawnFood _ _ _) as [[f g']|]; [|discriminate].
    injection Hs as <-. now apply in_bounds_fresh. }
  clear Hs.
  assert (H : in_bounds gm).
  { revert gm0 H0 Hr. induction inputs as [|[evs dt] rest IH];
      intros gm0 H0; cbn [run].
    - intros E; injection E as <-. exact H0.
    - destruct (window_open gm0).
      + destruct (frame fuel evs dt gm0) as [gm1|] eqn:E1; [|discriminate].
        apply IH. eapply in_bounds_frame; eauto.
      + intros E; injection E as <-. exact H0. }
  split; [exact H|].
  destruct H as (_ & NE & _ & Hsc & Hlen & _).
  assert (Hpos : (0 < length (body (snake gm)))%nat)
    by (destruct (body (snake gm)); [congruence | cbn; lia]).
  unfold COLS, ROWS in Hlen.
  destruct (grow (snake gm)); lia.
Qed.

End Bounds.

(* ------------------------------------------------------------------ *)
(** ** Two scenarios *)

(** Food directly ahead of the head: after one step the head is on the
    food's cell, the score is 10 and growth is pending, the body still
    having one segment; the second segment appears with the next step. *)
Example meal_then_growth :
  option_map (fun gm => (body (snake gm), grow (snake gm), score gm))
             (ticks 5 1 food_ahead)
  = Some ([Vec 21 15], true, 10) /\
  option_map (fun gm => (body (snake gm), grow (snake gm), score gm))
             (ticks 5 2 food_ahead)
  = Some ([Vec 22 15; Vec 21 15], false, 10).
Proof. split; vm_compute; reflexivity. Qed.

(** A snake of three segments heading right: Up and Left pressed before the
    next step turn it back onto its own second segment, and the step ends
    the game. *)
Example double_turn_ends_game :
  let gm := {| snake := {| body := [Vec 22 15; Vec 21 15; Vec 20 15];
                           dir := Vec 1 0; grow := false |};
               food := Vec 3 4; moveDelay := f0_12; acc := f0;
               gameOver := false; score := 20; highscore := 0;
               window_open := true; gen := ([] : list Z);
               disk := mkDisk own_file [] true [] |} in
  option_map (fun g => (dir (snake g), gameOver g))
             (frame 1 [KeyPressed Keyboard.Up; KeyPressed Keyboard.Left]
                    one_second gm)
  = Some (Vec (-1) 0, true).
Proof. vm_compute. reflexivity. Qed.

(* ================================================================== *)
(** * Part IV: further properties of the code *)

(* ------------------------------------------------------------------ *)
(** ** saveHighscore and loadHighscore together *)

Lemma fs_read_write_other (fs : list (string * string))
    (file other content : string) :
  file <> other ->
  fs_read (fs_write fs file content) other = fs_read fs other.
Proof.
  intros NE. induction fs as [|[name old] fs IH]; cbn [fs_write fs_read].
  - destruct (String.eqb file other) eqn:E; [|reflexivity].
    apply String.eqb_eq in E. contradiction.
  - destruct (String.eqb name file) eqn:E1; cbn [fs_read].
    + apply String.eqb_eq in E1. subst name.
      destruct (String.eqb file other) eqn:E2; [|reflexivity].
      apply String.eqb_eq in E2. contradiction.
    + destruct (String.eqb name other); [reflexivity | exact IH].
Qed.

(** X1: on a disk that can be written, loading after saving returns the
    number saved, for every [int], every path and whatever the file held
    before. *)
Theorem save_load_round_trip (d : Disk) (path : string) (n : Z) :
  writable d = true -> INT_MIN <= n <= INT_MAX ->
  loadHighscore (saveHighscore n path d) path = n.
Proof.
  intros Hw Hn. unfold loadHighscore, saveHighscore. cbn [files resolve].
  rewrite Hw, fs_read_write, (extract_insert n Hn). reflexivity.
Qed.

Lemma save_load_round_trip_witness :
  loadHighscore
    (saveHighscore (-7) default_path
       (mkDisk own_file [(default_path, "garbage"%string)] true []))
    default_path = -7.
Proof.
  apply save_load_round_trip; [reflexivity | unfold INT_MIN, INT_MAX; lia].
Defined.

(** X2: saving overwrites the file, under whatever name it is read: after
    two saves through a path the second number is loaded, and after a save
    through one path every path that names the same file loads the number
    saved.  A save changes what is loaded from no other file; and when the
    file cannot be opened for writing, saving changes nothing that is
    loaded. *)
Theorem save_overwrites_only_its_file (d : Disk) (path : string) (a b : Z) :
  INT_MIN <= b <= INT_MAX ->
  (writable d = true ->
   loadHighscore (saveHighscore b path (saveHighscore a path d)) path = b) /\
  (writable d = true ->
   forall other : string,
     resolve d other = resolve d path ->
     loadHighscore (saveHighscore b path d) other = b) /\
  (forall other : string,
      resolve d other <> resolve d path ->
      loadHighscore (saveHighscore b path d) other = loadHighscore d other) /\
  (writable d = false ->
   forall other : string,
     loadHighscore (saveHighscore b path d) other = loadHighscore d other).
Proof.
  intros Hb. split; [|split; [|split]].
  - intros Hw. apply save_then_load; [exact Hw | exact Hb].
  - intros Hw other E. unfold loadHighscore, saveHighscore.
    cbn [files resolve].
    rewrite Hw, E, fs_read_write, (extract_insert b Hb). reflexivity.
  - intros other NE. unfold loadHighscore, saveHighscore.
    cbn [files resolve].
    destruct (writable d); [|reflexivity].
    rewrite (fs_read_write_other (files d) (resolve d path)
               (resolve d other) _ (fun E => NE (eq_sym E))).
    reflexivity.
  - intros Hw other. unfold loadHighscore, saveHighscore.
    cbn [files resolve]. now rewrite Hw.
Qed.

(** The theorem on a disk with two files, where ["./highscore.txt"] is a
    second name of ["highscore.txt"]. *)
Lemma save_overwrites_only_its_file_witness :
  let d := mkDisk drop_dot_slash
             [("other.txt", "5"); (default_path, "10")]%string true [] in
  loadHighscore (saveHighscore 40 default_path
                   (saveHighscore 30 default_path d)) default_path = 40 /\
  loadHighscore (saveHighscore 40 default_path d) "./highscore.txt" = 40 /\
  loadHighscore (saveHighscore 40 default_path d) "other.txt" = 5.
Proof.
  intros d.
  assert (Hb : INT_MIN <= 40 <= INT_MAX) by (unfold INT_MIN, INT_MAX; lia).
  destruct (save_overwrites_only_its_file d default_path 30 40 Hb)
    as (Hlast & Halias & Hother & _).
  split; [apply Hlast; reflexivity|].
  split; [apply Halias; reflexivity|].
  rewrite (Hother "other.txt"%string); [reflexivity | discriminate].
Defined.

(* ------------------------------------------------------------------ *)
(** ** Events (lines 93-112) *)

Section EventProps.
Context {G : Generator}.

Lemma Keyboard_eqb_eq (a b : Keyboard.Key) :
  Keyboard.eqb a b = true <-> a = b.
Proof. destruct a, b; cbn; split; intros H; try discriminate; reflexivity. Qed.

Lemma key_ignored_when_over (fuel : nat) (code : Keyboard.Key) (gm : Game) :
  gameOver gm = true -> code <> Keyboard.R ->
  handle_event fuel (KeyPressed code) gm = Some gm.
Proof.
  destruct gm as [[b d g] f md a over sc hs wo gn dk].
  cbn [handle_event gameOver snake dir]. intros -> NE. cbn [negb andb].
  destruct (Keyboard.eqb code Keyboard.R) eqn:E; [|reflexivity].
  apply Keyboard_eqb_eq in E. contradiction.
Qed.

(** X3: input is gated by the state.  While the game is over every key but
    R leaves the whole session as it is (no steering); while it is being
    played R does nothing; an event that is neither a key press nor the
    close request never changes anything. *)
Theorem keys_are_gated (fuel : nat) (code : Keyboard.Key) (gm : Game) :
  (gameOver gm = true -> code <> Keyboard.R ->
   handle_event fuel (KeyPressed code) gm = Some gm) /\
  (gameOver gm = false ->
   handle_event fuel (KeyPressed Keyboard.R) gm = Some gm) /\
  handle_event fuel OtherEvent gm = Some gm.
Proof.
  destruct gm as [[b d g] f md a over sc hs wo gn dk].
  cbn [handle_event gameOver snake dir]. split; [|split].
  - intros -> NE. cbn [negb andb].
    destruct (Keyboard.eqb code Keyboard.R) eqn:E; [|reflexivity].
    apply Keyboard_eqb_eq in E. contradiction.
  - intros ->. reflexivity.
  - reflexivity.
Qed.

Context {R : InRange G}.

(** X4: R pressed while the game is over starts a new session: the snake
    is the starting snake, score 0, interval 0.12f, accumulator 0, the game
    is being played, and the new food is a cell of the grid other than the
    snake's; the high score, the file and the window are kept.  The event
    is handled as soon as one of the cells drawn is free. *)
Theorem restart_resets_session (fuel : nat) (gm : Game) :
  gameOver gm = true ->
  (forall gm' : Game,
      handle_event fuel (KeyPressed Keyboard.R) gm = Some gm' ->
      snake gm' = resetGame /\ score gm' = 0 /\ moveDelay gm' = f0_12 /\
      acc gm' = f0 /\ gameOver gm' = false /\
      inside (food gm') = true /\ food gm' <> Vec 20 15 /\
      highscore gm' = highscore gm /\ disk gm' = disk gm /\
      window_open gm' = window_open gm) /\
  (forall n : nat,
      (n < fuel)%nat -> fst (candidate n (gen gm)) <> Vec 20 15 ->
      exists gm' : Game,
        handle_event fuel (KeyPressed Keyboard.R) gm = Some gm').
Proof.
  intros Hover. cbn [handle_event]. rewrite Hover. cbn [negb andb Keyboard.eqb].
  unfold spawnFood. change (Z.of_nat (length (body resetGame)) >=? COLS * ROWS)
    with false. cbv iota.
  split.
  - intros gm'.
    destruct (sample fuel resetGame (gen gm)) as [[f g']|] eqn:E;
      [|discriminate].
    intros H; injection H as <-. cbn.
    destruct (sample_unoccupied fuel resetGame (gen gm) g' f E)
      as [Hfree (n & _ & Hc)].
    pose proof (candidate_inside n (gen gm)) as Hin. rewrite Hc in Hin.
    repeat split; auto.
    intros ->. discriminate.
  - intros n Hn Hfree.
    destruct (sample_finds resetGame n fuel (gen gm) Hn) as (p & g' & E).
    + apply scan_from_not_In. intros [H | []]. auto.
    + rewrite E. eauto.
Qed.

End EventProps.

Lemma keys_are_gated_witness :
  handle_event 1 (KeyPressed Keyboard.Left) at_wall = Some at_wall /\
  handle_event 1 (KeyPressed Keyboard.R) before_wall = Some before_wall.
Proof.
  split.
  - apply (proj1 (keys_are_gated 1 Keyboard.Left at_wall));
      [reflexivity | discriminate].
  - apply (proj1 (proj2 (keys_are_gated 1 Keyboard.R before_wall))).
    reflexivity.
Defined.

Lemma restart_resets_session_witness :
  exists gm' : @Game Scripted,
    handle_event 2 (KeyPressed Keyboard.R) at_wall = Some gm' /\
    snake gm' = resetGame /\ score gm' = 0 /\ highscore gm' = 30.
Proof.
  destruct (@restart_resets_session Scripted Scripted_in_range 2%nat at_wall
              eq_refl) as [Hstate Hret].
  destruct (Hret 0%nat ltac:(lia) ltac:(discriminate)) as (gm' & E).
  exists gm'. split; [exact E|].
  destruct (Hstate gm' E) as (H1 & H2 & _ & _ & _ & _ & _ & H8 & _).
  repeat split; assumption.
Defined.

(* ------------------------------------------------------------------ *)
(** ** One step (lines 118-135) *)

Section StepProps.
Context {G : Generator}.

(** X5: a step of a session being played ends the game exactly when the
    new head is outside the grid or on another segment of the moved body;
    and a step that ends the game eats nothing, even with the food under
    the head. *)
Theorem step_ends_game_iff (fuel : nat) (gm gm' : Game) :
  gameOver gm = false ->
  tick fuel gm = Some gm' ->
  (gameOver gm' = true <->
   inside (front (body (move (snake gm)))) = false \/
   In (front (body (move (snake gm)))) (tl (body (move (snake gm))))) /\
  (gameOver gm' = true ->
   score gm' = score gm /\ food gm' = food gm /\
   snake gm' = move (snake gm)).
Proof.
  intros Hplay Ht.
  assert (Hc : collided gm = true <->
               inside (front (body (move (snake gm)))) = false \/
               In (front (body (move (snake gm))))
                  (tl (body (move (snake gm))))).
  { unfold collided, inside. rewrite Hplay, <- scan_from_In.
    fold (hitsSelf (move (snake gm))).
    destruct (hitsSelf (move (snake gm))); [tauto|].
    destruct (_ || _); cbn [negb]; split; auto; intros [H | H];
      discriminate. }
  rewrite tick_cases in Ht.
  destruct (negb (collided gm) && Veqb _ _) eqn:Eat.
  - destruct (spawnFood _ _ _) as [[f g']|]; [|discriminate].
    injection Ht as <-. cbn [gameOver].
    apply andb_true_iff in Eat. destruct Eat as [Eat _].
    apply negb_true_iff in Eat. rewrite <- Hc, Eat.
    split; [split; discriminate | discriminate].
  - injection Ht as <-. cbn [moved gameOver score food snake].
    rewrite <- Hc. split; [tauto | auto].
Qed.

(** X6: the step after a meal lengthens the snake by exactly one segment
    and moves no segment away: the whole body of before, head on the cell
    where the food was, follows the new head. *)
Theorem meal_grows_on_next_step (fuel : nat) (gm gm1 : Game) :
  body (snake gm) <> [] ->
  tick fuel gm = Some gm1 ->
  score gm1 = score gm + 10 ->
  front (body (snake gm1)) = food gm /\
  length (body (snake gm1)) =
    (if grow (snake gm) then S (length (body (snake gm)))
     else length (body (snake gm))) /\
  body (move (snake gm1)) =
    Vadd (food gm) (dir (snake gm)) :: body (snake gm1) /\
  grow (move (snake gm1)) = false.
Proof.
  intros NE Ht Hs.
  destruct (tick_meal fuel gm gm1 Ht) as [(_ & _ & Hf & Hg) | (Hs' & _)];
    [|lia].
  assert (NE1 : body (snake gm1) <> []).
  { rewrite tick_cases in Ht.
    destruct (negb (collided gm) && Veqb _ _).
    - destruct (spawnFood _ _ _) as [[f g']|]; [|discriminate].
      injection Ht as <-. cbn [snake set_grow body].
      apply move_body_nonempty, NE.
    - injection Ht as <-. cbn [snake moved body].
      apply move_body_nonempty, NE. }
  assert (Hd : dir (snake gm1) = dir (snake gm) /\
               length (body (snake gm1)) = length (body (move (snake gm)))).
  { rewrite tick_cases in Ht.
    destruct (negb (collided gm) && Veqb _ _).
    - destruct (spawnFood _ _ _) as [[f g']|]; [|discriminate].
      injection Ht as <-. cbn [snake set_grow dir body].
      split; [apply move_dir | reflexivity].
    - injection Ht as <-. cbn [snake moved dir body].
      split; [apply move_dir | reflexivity]. }
  destruct Hd as [Hd Hl].
  split; [exact Hf|]. split; [rewrite Hl; apply move_length|].
  split; [|apply move_grow].
  rewrite (move_body (snake gm1) NE1), Hg. unfold nextHead.
  now rewrite Hf, Hd.
Qed.

End StepProps.

Lemma step_ends_game_iff_witness :
  exists gm' : @Game Scripted,
    tick 0 before_wall = Some gm' /\ gameOver gm' = true /\
    score gm' = 30.
Proof.
  assert (E : tick 0 before_wall = Some (moved before_wall)) by reflexivity.
  destruct (@step_ends_game_iff Scripted 0%nat before_wall
              (moved before_wall) eq_refl E) as [Hiff Hkeep].
  assert (Hover : gameOver (moved before_wall) = true).
  { apply Hiff. left. reflexivity. }
  exists (moved before_wall). split; [exact E|]. split; [exact Hover|].
  destruct (Hkeep Hover) as (Hs & _). exact Hs.
Defined.

Lemma meal_grows_on_next_step_witness :
  body (move (snake after_meal)) = [Vec 22 15; Vec 21 15] /\
  front (body (snake after_meal)) = Vec 21 15.
Proof.
  assert (E : tick 5 food_ahead = Some
                {| snake := snake after_meal; food := food after_meal;
                   moveDelay := moveDelay after_meal; acc := f0;
                   gameOver := false; score := 10; highscore := 0;
                   window_open := true; gen := [];
                   disk := mkDisk own_file [] true [] |}) by reflexivity.
  destruct (@meal_grows_on_next_step Scripted 5%nat food_ahead _
              ltac:(discriminate) E eq_refl) as (Hf & _ & Hb & _).
  split; [exact Hb | exact Hf].
Defined.

(* ------------------------------------------------------------------ *)
(** ** Whole frames (lines 91-172) *)

Section WholeFrames.
Context {G : Generator}.

Lemma handle_event_window (fuel : nat) (ev : Event) (gm gm' : Game) :
  handle_event fuel ev gm = Some gm' ->
  window_open gm' =
  window_open gm && negb (match ev with Closed => true | _ => false end).
Proof.
  destruct ev as [|code|]; cbn [handle_event].
  - intros E; injection E as <-. cbn. now rewrite andb_false_r.
  - destruct (gameOver gm && Keyboard.eqb code Keyboard.R).
    + destruct (spawnFood _ _ _) as [[f g']|]; [|discriminate].
      intros E; injection E as <-. cbn. now rewrite andb_true_r.
    + intros E; injection E as <-. cbn. now rewrite andb_true_r.
  - intros E; injection E as <-. cbn. now rewrite andb_true_r.
Qed.

Lemma poll_events_window (fuel : nat) (evs : list Event) (gm gm' : Game) :
  poll_events fuel evs gm = Some gm' ->
  window_open gm' = window_open gm && negb (closes evs).
Proof.
  revert gm. induction evs as [|ev evs IH]; intros gm; cbn [poll_events].
  - intros E; injection E as <-. cbn. now rewrite andb_true_r.
  - destruct (handle_event fuel ev gm) as [gm1|] eqn:E1; [|discriminate].
    intros E2. rewrite (IH gm1 E2), (handle_event_window fuel ev gm gm1 E1).
    destruct ev; cbn [closes negb]; destruct (window_open gm);
      destruct (closes evs); reflexivity.
Qed.

Lemma simulate_window (fuel : nat) (dt : float) (gm gm' : Game) :
  simulate fuel dt gm = Some gm' -> window_open gm' = window_open gm.
Proof.
  unfold simulate. destruct (negb _ && fleb _ _).
  - rewrite tick_cases. destruct (negb _ && Veqb _ _).
    + destruct (spawnFood _ _ _) as [[f g']|]; [|discriminate].
      intros E; injection E as <-. reflexivity.
    + intros E; injection E as <-. reflexivity.
  - intros E; injection E as <-. reflexivity.
Qed.

Lemma record_highscore_window (gm : Game) :
  window_open (record_highscore gm) = window_open gm.
Proof.
  unfold record_highscore.
  destruct (gameOver gm && (score gm >? highscore gm)); reflexivity.
Qed.

Lemma run_closed (fuel : nat) (inputs : list (list Event * float))
    (gm : Game) :
  window_open gm = false -> run fuel inputs gm = Some gm.
Proof.
  intros H. destruct inputs as [|[evs dt] rest]; cbn [run];
    [reflexivity|]. now rewrite H.
Qed.

(** X7: the window never reopens, and a close request ends the loop after
    the frame it arrives in: the window is open after a frame exactly when
    it was open before and no [Closed] event was among the frame's events,
    and after a frame with a [Closed] event the loop runs no further
    frame, whatever input is still to come. *)
Theorem close_request_is_final (fuel : nat) (evs : list Event) (dt : float)
    (gm gm' : Game) :
  frame fuel evs dt gm = Some gm' ->
  window_open gm' = window_open gm && negb (closes evs) /\
  (closes evs = true ->
   forall inputs : list (list Event * float),
     run fuel inputs gm' = Some gm').
Proof.
  intros Hf.
  destruct (frame_inv fuel evs dt gm gm' Hf) as (gm1 & gm2 & He & Hs & ->).
  assert (Hw : window_open (record_highscore gm2)
               = window_open gm && negb (closes evs)).
  { rewrite record_highscore_window, (simulate_window fuel dt gm1 gm2 Hs).
    apply (poll_events_window fuel evs gm gm1 He). }
  split; [exact Hw|].
  intros Hc inputs. apply run_closed. rewrite Hw, Hc. apply andb_false_r.
Qed.

Lemma poll_events_over_quiet (fuel : nat) (evs : list Event) :
  forall gm : Game,
    gameOver gm = true -> no_restart evs = true ->
    exists gm1 : Game,
      poll_events fuel evs gm = Some gm1 /\
      snake gm1 = snake gm /\ food gm1 = food gm /\
      moveDelay gm1 = moveDelay gm /\ acc gm1 = acc gm /\
      gameOver gm1 = true /\ score gm1 = score gm /\
      highscore gm1 = highscore gm /\ gen gm1 = gen gm /\
      disk gm1 = disk gm.
Proof.
  induction evs as [|ev evs IH]; intros gm Hover Hq.
  - exists gm. cbn. repeat split; auto.
  - assert (Hstep : exists gm0 : Game,
               handle_event fuel ev gm = Some gm0 /\
               snake gm0 = snake gm /\ food gm0 = food gm /\
               moveDelay gm0 = moveDelay gm /\ acc gm0 = acc gm /\
               gameOver gm0 = true /\ score gm0 = score gm /\
               highscore gm0 = highscore gm /\ gen gm0 = gen gm /\
               disk gm0 = disk gm /\ no_restart evs = true).
    { destruct ev as [|code|]; cbn [no_restart] in Hq.
      - eexists. split; [reflexivity|]. cbn. repeat split; auto.
      - apply andb_true_iff in Hq. destruct Hq as [Hc Hq].
        exists gm. split.
        + apply (key_ignored_when_over fuel code gm Hover).
          intros ->. discriminate.
        + repeat split; auto.
      - exists gm. split; [reflexivity|]. repeat split; auto. }
    destruct Hstep as (gm0 & E0 & H1 & H2 & H3 & H4 & H5 & H6 & H7 & H8
                       & H9 & Hq').
    destruct (IH gm0 H5 Hq')
      as (gm1 & E1 & K1 & K2 & K3 & K4 & K5 & K6 & K7 & K8 & K9).
    exists gm1. cbn [poll_events]. rewrite E0.
    split; [exact E1|]. repeat split; congruence.
Qed.

(** X8: while the game is over and R is not pressed, a frame always
    completes and the session stands still, however much time has passed
    and whatever other keys are pressed: snake, food, score, interval and
    generator are unchanged, the game stays over, the accumulator only
    gathers the elapsed time, and the high score held is the larger of the
    high score and the score. *)
Theorem game_over_stands_still (fuel : nat) (evs : list Event) (dt : float)
    (gm : Game) :
  gameOver gm = true -> no_restart evs = true ->
  exists gm' : Game,
    frame fuel evs dt gm = Some gm' /\
    snake gm' = snake gm /\ food gm' = food gm /\ score gm' = score gm /\
    moveDelay gm' = moveDelay gm /\ gen gm' = gen gm /\
    gameOver gm' = true /\ acc gm' = fadd (acc gm) dt /\
    highscore gm' = Z.max (highscore gm) (score gm).
Proof.
  intros Hover Hq.
  destruct (poll_events_over_quiet fuel evs gm Hover Hq)
    as (gm1 & E1 & K1 & K2 & K3 & K4 & K5 & K6 & K7 & K8 & K9).
  exists (record_highscore (charge dt gm1)).
  split.
  - unfold frame. rewrite E1. unfold simulate.
    cbn [charge gameOver moveDelay acc]. rewrite K5. reflexivity.
  - unfold record_highscore. cbn [charge gameOver score highscore].
    rewrite K5, K6, K7. cbn [andb]. rewrite Z.gtb_ltb.
    destruct (highscore gm <? score gm) eqn:E; cbn;
      [apply Z.ltb_lt in E | apply Z.ltb_ge in E];
      repeat split; try congruence; lia.
Qed.

Lemma poll_events_fresh (fuel : nat) (evs : list Event) (gm gm' : Game) :
  fresh gm -> poll_events fuel evs gm = Some gm' -> fresh gm'.
Proof.
  intros Hf He.
  assert (HJ : over_or_fresh (score gm) gm') .
  { apply (poll_events_over_or_fresh fuel (score gm) evs gm gm');
      [right; exact Hf | exact He]. }
  destruct HJ as [[Hover _] | H]; [|exact H].
  destruct Hf as (Hplay & _).
  destruct (poll_events_playing fuel evs gm gm' Hplay He) as [Hp _].
  congruence.
Qed.

Lemma fresh_tick (fuel : nat) (gm gm' : Game) :
  fresh gm -> tick fuel gm = Some gm' ->
  gameOver gm' = false /\
  axis_step (Vsub (front (body (snake gm'))) (Vec 20 15)).
Proof.
  intros H1 Ht.
  pose proof (fresh_not_collided gm H1) as Hc.
  destruct H1 as (Hplay & Hb & Hd).
  assert (Hhead : front (body (move (snake gm)))
                  = Vadd (Vec 20 15) (dir (snake gm))).
  { rewrite (move_body (snake gm)) by (rewrite Hb; discriminate).
    cbn [front hd]. unfold nextHead. now rewrite Hb. }
  assert (Hstep : axis_step (Vsub (Vadd (Vec 20 15) (dir (snake gm)))
                                  (Vec 20 15))).
  { destruct Hd as [-> | [-> | [-> | ->]]]; unfold axis_step; cbn; tauto. }
  rewrite tick_cases in Ht. rewrite Hc in Ht. cbn [negb andb] in Ht.
  destruct (Veqb _ _).
  - destruct (spawnFood _ _ _) as [[f g']|]; [|discriminate].
    injection Ht as <-. cbn [gameOver snake set_grow body].
    split; [reflexivity|]. now rewrite Hhead.
  - injection Ht as <-. cbn [moved gameOver snake].
    split; [exact Hc|]. now rewrite Hhead.
Qed.

(** X9: the first frame of the program cannot lose the game, whatever
    keys are pressed in it and however long it lasts: after it the game is
    being played, and the snake is still the single segment at the centre
    (20,15) or has its head one axis step away from it. *)
Theorem first_frame_is_safe (fuel : nat) (g : rng) (d : Disk)
    (evs : list Event) (dt : float) (gm0 gm' : Game) :
  start fuel g d = Some gm0 ->
  frame fuel evs dt gm0 = Some gm' ->
  gameOver gm' = false /\
  (body (snake gm') = [Vec 20 15] \/
   axis_step (Vsub (front (body (snake gm'))) (Vec 20 15))).
Proof.
  intros Hs Hf.
  assert (H0 : fresh gm0).
  { unfold start in Hs.
    destruct (spawnFood _ _ _) as [[f g']|]; [|discriminate].
    injection Hs as <-. unfold fresh, axis_step. cbn.
    split; [reflexivity|]. split; [reflexivity|]. tauto. }
  destruct (frame_inv fuel evs dt gm0 gm' Hf) as (gm1 & gm2 & He & Hsim & ->).
  pose proof (poll_events_fresh fuel evs gm0 gm1 H0 He) as H1.
  assert (H2 : gameOver gm2 = false /\
               (body (snake gm2) = [Vec 20 15] \/
                axis_step (Vsub (front (body (snake gm2))) (Vec 20 15)))).
  { unfold simulate in Hsim.
    destruct (negb (gameOver (charge dt gm1)) && fleb _ _).
    - destruct (fresh_tick fuel (discharge (charge dt gm1)) gm2 H1 Hsim)
        as [Hplay Hstep].
      split; [exact Hplay | right; exact Hstep].
    - injection Hsim as <-. destruct H1 as (Hplay & Hb & _).
      split; [exact Hplay | left; exact Hb]. }
  destruct H2 as [Hplay Hbody]. unfold record_highscore.
  rewrite Hplay. cbn [andb]. split; assumption.
Qed.

End WholeFrames.

Lemma close_request_is_final_witness :
  exists gm' : @Game Scripted,
    frame 1 [Closed; KeyPressed Keyboard.Up] one_second at_wall = Some gm' /\
    window_open gm' = false /\
    run 1 [([KeyPressed Keyboard.R], one_second)] gm' = Some gm'.
Proof.
  set (gm' := @mkGame Scripted (snake at_wall) (food at_wall) f0_12
                (acc at_wall_later) true 30 30 false [] (disk at_wall)).
  assert (E : frame 1 [Closed; KeyPressed Keyboard.Up] one_second at_wall
              = Some gm') by reflexivity.
  destruct (@close_request_is_final Scripted 1%nat
              [Closed; KeyPressed Keyboard.Up] one_second at_wall gm' E)
    as [Hw Hrun].
  exists gm'. split; [exact E|]. split; [exact Hw|].
  apply Hrun. reflexivity.
Defined.

Lemma game_over_stands_still_witness :
  exists gm' : @Game Scripted,
    frame 1 [KeyPressed Keyboard.Left; OtherEvent] one_second at_wall
      = Some gm' /\
    snake gm' = snake at_wall /\ score gm' = 30 /\ highscore gm' = 30.
Proof.
  destruct (@game_over_stands_still Scripted 1%nat
              [KeyPressed Keyboard.Left; OtherEvent] one_second at_wall
              eq_refl eq_refl)
    as (gm' & E & H1 & _ & H3 & _ & _ & _ & _ & H8).
  exists gm'. repeat split; assumption.
Defined.

Lemma first_frame_is_safe_witness :
  gameOver after_meal = false /\
  axis_step (Vsub (front (body (snake after_meal))) (Vec 20 15)).
Proof.
  destruct (@first_frame_is_safe Scripted 5%nat [21; 15; 0; 0]
              (mkDisk own_file [] true []) [] one_second food_ahead after_meal
              eq_refl eq_refl) as [Hplay [Hb | Hstep]].
  - discriminate Hb.
  - split; [exact Hplay | exact Hstep].
Defined.

(* ------------------------------------------------------------------ *)
(** ** Invariants of a run *)

Section RunInvariants.
Context {G : Generator}.

(** A property kept by every part of a frame is kept by a whole run. *)
Lemma run_preserves (P : Game -> Prop) (fuel : nat) :
  (forall (ev : Event) (gm gm' : Game),
      P gm -> handle_event fuel ev gm = Some gm' -> P gm') ->
  (forall (gm gm' : Game),
      P gm -> gameOver gm = false -> tick fuel gm = Some gm' -> P gm') ->
  (forall (dt : float) (gm : Game), P gm -> P (charge dt gm)) ->
  (forall gm : Game, P gm -> P (discharge gm)) ->
  (forall gm : Game, P gm -> P (record_highscore gm)) ->
  forall (inputs : list (list Event * float)) (gm gm' : Game),
    P gm -> run fuel inputs gm = Some gm' -> P gm'.
Proof.
  intros Hev Htick Hch Hdis Hrec.
  assert (Hpoll : forall (evs : list Event) (gm gm' : Game),
             P gm -> poll_events fuel evs gm = Some gm' -> P gm').
  { induction evs as [|ev evs IH]; intros gm gm' Hp; cbn [poll_events].
    - intros E; injection E as <-. exact Hp.
    - destruct (handle_event fuel ev gm) as [gm1|] eqn:E1; [|discriminate].
      apply IH. eapply Hev; eauto. }
  assert (Hframe : forall (evs : list Event) (dt : float) (gm gm' : Game),
             P gm -> frame fuel evs dt gm = Some gm' -> P gm').
  { intros evs dt gm gm' Hp Hf.
    destruct (frame_inv fuel evs dt gm gm' Hf) as (gm1 & gm2 & He & Hs & ->).
    apply Hrec. pose proof (Hpoll evs gm gm1 Hp He) as H1.
    unfold simulate in Hs.
    destruct (negb (gameOver (charge dt gm1))) eqn:Hplay; cbn [andb] in Hs.
    - apply negb_true_iff in Hplay. destruct (fleb _ _).
      + apply (Htick (discharge (charge dt gm1)) gm2); auto.
      + injection Hs as <-. auto.
    - injection Hs as <-. auto. }
  induction inputs as [|[evs dt] rest IH]; intros gm gm' Hp; cbn [run].
  - intros E; injection E as <-. exact Hp.
  - destruct (window_open gm).
    + destruct (frame fuel evs dt gm) as [gm1|] eqn:E1; [|discriminate].
      apply IH. eapply Hframe; eauto.
    + intros E; injection E as <-. exact Hp.
Qed.

Lemma start_inv (fuel : nat) (g : rng) (d : Disk) (gm0 : Game) :
  start fuel g d = Some gm0 ->
  exists (f : Vector2i) (g' : rng),
    spawnFood fuel resetGame g = Some (f, g') /\
    gm0 = {| snake := resetGame; food := f; moveDelay := f0_12; acc := f0;
             gameOver := false; score := 0;
             highscore := loadHighscore d default_path;
             window_open := true; gen := g'; disk := d |}.
Proof.
  unfold start. destruct (spawnFood fuel resetGame g) as [[f g']|];
    [|discriminate].
  intros E; injection E as <-. eauto.
Qed.

(** X10: in every state of a run in which the game is being played, the
    snake has between 1 and 1200 segments, all inside the grid and no two
    on the same cell; in particular the head is on no other segment. *)
Theorem playing_snake_is_valid (fuel : nat) (g : rng) (d : Disk)
    (inputs : list (list Event * float)) (gm0 gm : Game) :
  start fuel g d = Some gm0 -> run fuel inputs gm0 = Some gm ->
  gameOver gm = false ->
  Forall (fun p => inside p = true) (body (snake gm)) /\
  NoDup (body (snake gm)) /\ hitsSelf (snake gm) = false /\
  (1 <= length (body (snake gm)) <= 1200)%nat.
Proof.
  intros Hs Hr Hplay.
  pose proof (playing_valid_run fuel inputs gm0 gm
                (playing_valid_start fuel g d gm0 Hs) Hr Hplay)
    as (NE & Hin & Hnd).
  pose proof (valid_snake_length (snake gm) Hin Hnd) as Hlen.
  unfold COLS, ROWS in Hlen.
  split; [exact Hin|]. split; [exact Hnd|]. split.
  - unfold hitsSelf. apply scan_from_not_In.
    destruct (body (snake gm)) as [|h t]; [congruence|].
    cbn [front hd tl]. now inversion Hnd.
  - destruct (body (snake gm)); [congruence | cbn [length] in *; lia].
Qed.

(** X11: in every state of a run the score is ten times the number of
    segments grown or about to be grown: 10 * (length + pending - 1); it
    lies between 0 and 12000, and every segment is at most one cell outside
    the grid, so no [int] of the program overflows. *)
Theorem score_counts_growth (fuel : nat) (g : rng) (d : Disk)
    (inputs : list (list Event * float)) (gm0 gm : Game) :
  start fuel g d = Some gm0 -> run fuel inputs gm0 = Some gm ->
  score gm =
    10 * (Z.of_nat (length (body (snake gm)))
          + (if grow (snake gm) then 1 else 0) - 1) /\
  0 <= score gm <= 12000 /\
  Forall (fun p => -1 <= x p <= COLS /\ -1 <= y p <= ROWS)
         (body (snake gm)).
Proof.
  intros Hs Hr.
  destruct (run_in_bounds fuel g d inputs gm0 gm Hs Hr)
    as [(_ & _ & Hb & Hsc & _) Hrange].
  auto.
Qed.

Lemma connected_removelast (l : list Vector2i) :
  connected l -> connected (removelast l).
Proof.
  induction l as [|a l IH]; [auto|].
  destruct l as [|b l]; [cbn; auto|].
  destruct l as [|c l]; [cbn; auto|].
  intros [Hab Hrest].
  change (removelast (a :: b :: c :: l))
    with (a :: b :: removelast (c :: l)).
  split; [exact Hab|]. apply IH in Hrest. exact Hrest.
Qed.

Lemma connected_move (s : Snake) :
  axis_step (dir s) -> body s <> [] -> connected (body s) ->
  connected (body (move s)).
Proof.
  intros Hd NE Hc. rewrite (move_body s NE).
  assert (Hrest : connected (if grow s then body s
                             else removelast (body s))).
  { destruct (grow s); [exact Hc | apply connected_removelast, Hc]. }
  assert (Hfront : forall b t,
             (if grow s then body s else removelast (body s)) = b :: t ->
             b = front (body s)).
  { intros b t E. destruct (body s) as [|h l]; [congruence|].
    destruct (grow s); [now injection E|].
    destruct l as [|c l]; [discriminate|].
    change (removelast (h :: c :: l)) with (h :: removelast (c :: l)) in E.
    now injection E. }
  destruct (if grow s then body s else removelast (body s))
    as [|b t] eqn:E; [exact I|].
  split; [|exact Hrest].
  rewrite (Hfront b t eq_refl). unfold nextHead, Vsub, Vadd. cbn [x y].
  replace (x (front (body s)) + x (dir s) - x (front (body s)))
    with (x (dir s)) by lia.
  replace (y (front (body s)) + y (dir s) - y (front (body s)))
    with (y (dir s)) by lia.
  destruct (dir s). exact Hd.
Qed.

(** X12: in every state of a run the heading is one of the four unit steps
    and the snake is a connected path: each segment is exactly one cell
    left, right, above or below the segment behind it. *)
Theorem snake_is_connected_path (fuel : nat) (g : rng) (d : Disk)
    (inputs : list (list Event * float)) (gm0 gm : Game) :
  start fuel g d = Some gm0 -> run fuel inputs gm0 = Some gm ->
  axis_step (dir (snake gm)) /\ body (snake gm) <> [] /\
  connected (body (snake gm)).
Proof.
  intros Hs Hr.
  apply (run_preserves is_path fuel) with (inputs := inputs) (gm := gm0);
    [ | | | | | | exact Hr].
  - intros ev gm1 gm2 (Hd & NE & Hc). destruct ev as [|code|];
      cbn [handle_event].
    + intros E; injection E as <-. repeat split; assumption.
    + destruct (gameOver gm1 && Keyboard.eqb code Keyboard.R).
      * destruct (spawnFood _ _ _) as [[f g']|]; [|discriminate].
        intros E; injection E as <-. unfold is_path, axis_step. cbn.
        split; [tauto|]. split; [discriminate | exact I].
      * intros E; injection E as <-. unfold is_path. cbn [snake].
        destruct (negb (gameOver gm1)); [|repeat split; assumption].
        cbn [set_dir dir body]. split; [apply steer_axis_step, Hd|].
        split; assumption.
    + intros E; injection E as <-. repeat split; assumption.
  - intros gm1 gm2 (Hd & NE & Hc) _ Ht.
    assert (Hm : is_path
                   {| snake := move (snake gm1); food := food gm1;
                      moveDelay := moveDelay gm1; acc := acc gm1;
                      gameOver := gameOver gm1; score := score gm1;
                      highscore := highscore gm1;
                      window_open := window_open gm1; gen := gen gm1;
                      disk := disk gm1 |}).
    { unfold is_path. cbn [snake]. rewrite move_dir.
      split; [exact Hd|]. split; [apply move_body_nonempty, NE|].
      apply connected_move; assumption. }
    rewrite tick_cases in Ht. destruct (negb _ && Veqb _ _).
    + destruct (spawnFood _ _ _) as [[f g']|]; [|discriminate].
      injection Ht as <-. exact Hm.
    + injection Ht as <-. exact Hm.
  - intros dt gm1 H. exact H.
  - intros gm1 H. exact H.
  - intros gm1 H. unfold record_highscore.
    destruct (gameOver gm1 && (score gm1 >? highscore gm1)); exact H.
  - destruct (start_inv fuel g d gm0 Hs) as (f & g' & _ & ->).
    unfold is_path, axis_step. cbn.
    split; [tauto|]. split; [discriminate | exact I].
Qed.

End RunInvariants.

Lemma playing_snake_is_valid_witness :
  NoDup (body (snake after_meal)) /\
  (1 <= length (body (snake after_meal)) <= 1200)%nat.
Proof.
  destruct (@playing_snake_is_valid Scripted 5%nat [21; 15; 0; 0]
              (mkDisk own_file [] true []) [([], one_second)] food_ahead after_meal
              eq_refl eq_refl eq_refl) as (_ & Hnd & _ & Hlen).
  split; assumption.
Defined.

Lemma score_counts_growth_witness :
  score after_meal = 10 * (1 + 1 - 1) /\ 0 <= score after_meal <= 12000.
Proof.
  destruct (@score_counts_growth Scripted 5%nat [21; 15; 0; 0]
              (mkDisk own_file [] true []) [([], one_second)] food_ahead after_meal
              eq_refl eq_refl) as (Hs & Hr & _).
  split; [exact Hs | exact Hr].
Defined.

Lemma snake_is_connected_path_witness :
  body (snake after_turn) = [Vec 21 16; Vec 21 15] /\
  connected (body (snake after_turn)) /\
  axis_step (dir (snake after_turn)).
Proof.
  destruct (@snake_is_connected_path Scripted 5%nat [21; 15; 0; 0]
              (mkDisk own_file [] true [])
              [([], one_second); ([KeyPressed Keyboard.Down], one_second)]
              food_ahead after_turn eq_refl eq_refl) as (Hd & _ & Hc).
  split; [reflexivity|]. split; [exact Hc | exact Hd].
Defined.

(* ------------------------------------------------------------------ *)
(** ** The food and the snake *)

Section FoodInvariant.
Context {G : Generator} {R : InRange G}.

Lemma spawnFood_clear (fuel : nat) (s : Snake) (g g' : rng) (f : Vector2i) :
  spawnFood fuel s g = Some (f, g') ->
  f = no_food \/ (inside f = true /\ occupies s f = false).
Proof.
  unfold spawnFood. destruct (_ >=? _).
  - intros E; injection E as <- _. left. reflexivity.
  - intros E. right.
    destruct (sample_unoccupied fuel s g g' f E) as [Hfree (n & _ & Hc)].
    pose proof (candidate_inside n g) as Hin. rewrite Hc in Hin. auto.
Qed.

Lemma fed_tick (fuel : nat) (gm gm' : Game) :
  fed gm -> gameOver gm = false -> tick fuel gm = Some gm' -> fed gm'.
Proof.
  intros [NE Hfood] Hplay Ht.
  pose proof (move_body (snake gm) NE) as B.
  rewrite tick_cases in Ht.
  destruct (negb (collided gm) && Veqb _ _) eqn:Eat.
  - destruct (spawnFood _ _ _) as [[f g']|] eqn:Es; [|discriminate].
    injection Ht as <-. split.
    + cbn [snake set_grow body]. apply move_body_nonempty, NE.
    + apply spawnFood_clear in Es. exact Es.
  - injection Ht as <-. split.
    + cbn [snake moved]. apply move_body_nonempty, NE.
    + destruct Hfood as [Hnone | [Hin Hfree]]; [left; exact Hnone|].
      right. cbn [moved food snake]. split; [exact Hin|].
      apply scan_from_not_In. intros Hocc.
      apply scan_from_not_In in Hfree.
      assert (Hrest : forall p,
                 In p (if grow (snake gm) then body (snake gm)
                       else removelast (body (snake gm))) ->
                 In p (body (snake gm))).
      { intros p Hp. destruct (grow (snake gm));
          [exact Hp | apply In_removelast, Hp]. }
      rewrite B in Hocc. destruct Hocc as [Hhead | Htail];
        [|apply Hfree, Hrest, Htail].
      assert (Hv : Veqb (front (body (move (snake gm)))) (food gm) = true).
      { apply Veqb_eq. rewrite B. exact Hhead. }
      rewrite Hv, andb_true_r in Eat. apply negb_false_iff in Eat.
      unfold collided in Eat. rewrite Hplay in Eat.
      destruct (hitsSelf (move (snake gm))) eqn:Hs.
      * unfold hitsSelf in Hs. apply scan_from_In in Hs.
        rewrite B in Hs. cbn [front hd tl] in Hs.
        apply Hfree, Hrest. rewrite <- Hhead. exact Hs.
      * rewrite B in Eat. cbn [front hd] in Eat. rewrite Hhead in Eat.
        unfold inside in Hin. apply negb_true_iff in Hin.
        rewrite Hin in Eat. discriminate.
Qed.

Lemma fed_run (fuel : nat) (g : rng) (d : Disk)
    (inputs : list (list Event * float)) (gm0 gm : Game) :
  start fuel g d = Some gm0 -> run fuel inputs gm0 = Some gm -> fed gm.
Proof.
  intros Hs Hr.
  apply (run_preserves fed fuel) with (inputs := inputs) (gm := gm0);
    [ | | | | | | exact Hr].
  - intros ev gm1 gm2 [NE Hf]. destruct ev as [|code|]; cbn [handle_event].
    + intros E; injection E as <-. split; assumption.
    + destruct (gameOver gm1 && Keyboard.eqb code Keyboard.R).
      * destruct (spawnFood _ _ _) as [[f g']|] eqn:Es; [|discriminate].
        intros E; injection E as <-. split; [discriminate|].
        apply spawnFood_clear in Es. exact Es.
      * intros E; injection E as <-. unfold fed, food_clear, occupies.
        cbn [snake food]. destruct (negb (gameOver gm1));
          split; assumption.
    + intros E; injection E as <-. split; assumption.
  - intros gm1 gm2. apply fed_tick.
  - intros dt gm1 H. exact H.
  - intros gm1 H. exact H.
  - intros gm1 H. unfold record_highscore.
    destruct (gameOver gm1 && (score gm1 >? highscore gm1)); exact H.
  - destruct (start_inv fuel g d gm0 Hs) as (f & g' & Es & ->).
    split; [discriminate|]. apply spawnFood_clear in Es. exact Es.
Qed.

(** X13: in every state of a run the food is either the sentinel (-1,-1)
    or a cell of the grid on which no segment of the snake lies: the food
    is never under the snake and never outside the grid. *)
Theorem food_is_never_under_the_snake (fuel : nat) (g : rng) (d : Disk)
    (inputs : list (list Event * float)) (gm0 gm : Game) :
  start fuel g d = Some gm0 -> run fuel inputs gm0 = Some gm ->
  food gm = no_food \/
  (inside (food gm) = true /\ ~ In (food gm) (body (snake gm))).
Proof.
  intros Hs Hr.
  destruct (fed_run fuel g d inputs gm0 gm Hs Hr) as [_ [H | [Hin Hfree]]];
    [left; exact H | right].
  split; [exact Hin | apply scan_from_not_In, Hfree].
Qed.

End FoodInvariant.

Lemma food_is_never_under_the_snake_witness :
  inside (food after_turn) = true /\
  ~ In (food after_turn) (body (snake after_turn)).
Proof.
  destruct (@food_is_never_under_the_snake Scripted Scripted_in_range 5%nat
              [21; 15; 0; 0] (mkDisk own_file [] true [])
              [([], one_second); ([KeyPressed Keyboard.Down], one_second)]
              food_ahead after_turn eq_refl eq_refl) as [H | H].
  - discriminate H.
  - exact H.
Defined.

(** X14: a move without growth of a snake with no repeated segment
    occupies the next head cell, frees the cell of the last segment, and
    changes the occupation of no other cell. *)
Theorem move_shifts_occupation (s : Snake) (p : Vector2i) :
  body s <> [] -> NoDup (body s) -> grow s = false ->
  (occupies (move s) p = true <->
   p = nextHead s \/
   (occupies s p = true /\ p <> last (body s) (Vec 0 0))).
Proof.
  intros NE Hnd Hg. unfold occupies.
  rewrite !scan_from_In, (move_body s NE), Hg.
  rewrite (app_removelast_last (Vec 0 0) NE) in Hnd at 1.
  assert (Hlast : ~ In (last (body s) (Vec 0 0)) (removelast (body s))).
  { apply NoDup_remove_2 in Hnd. rewrite app_nil_r in Hnd. exact Hnd. }
  assert (Hin : forall q, In q (body s) <->
                          In q (removelast (body s))
                          \/ q = last (body s) (Vec 0 0)).
  { intros q. rewrite (app_removelast_last (Vec 0 0) NE) at 1.
    rewrite in_app_iff. cbn. intuition. }
  cbn [In]. rewrite (Hin p). split.
  - intros [H | H]; [left; auto|]. right. split; [left; exact H|].
    intros ->. contradiction.
  - intros [H | [[H | H] Hne]]; [left; auto | right; exact H |
                                  contradiction].
Qed.

Lemma move_shifts_occupation_witness :
  let s := {| body := [Vec 5 5; Vec 4 5; Vec 3 5]; dir := Vec 1 0;
              grow := false |} in
  occupies (move s) (Vec 6 5) = true /\ occupies (move s) (Vec 3 5) = false.
Proof.
  intros s.
  assert (NE : body s <> []) by discriminate.
  assert (Hnd : NoDup (body s)).
  { repeat constructor; cbn; intuition discriminate. }
  split.
  - apply (move_shifts_occupation s (Vec 6 5) NE Hnd eq_refl).
    left. reflexivity.
  - destruct (occupies (move s) (Vec 3 5)) eqn:E; [|reflexivity].
    apply (move_shifts_occupation s (Vec 3 5) NE Hnd eq_refl) in E.
    destruct E as [E | [_ E]]; [discriminate | now elim E].
Defined.

(* ------------------------------------------------------------------ *)
(** ** The high score over a run *)

Section HighscoreInvariant.
Context {G : Generator}.

Lemma in_bounds_score_range (gm : Game) :
  in_bounds gm -> 0 <= score gm <= 12000.
Proof.
  intros (_ & NE & _ & Hsc & Hlen & _).
  assert (Hpos : (0 < length (body (snake gm)))%nat)
    by (destruct (body (snake gm)); [congruence | cbn; lia]).
  unfold COLS, ROWS in Hlen. destruct (grow (snake gm)); lia.
Qed.

Lemma kept_on_disk_run (fuel : nat) (g : rng) (d : Disk)
    (inputs : list (list Event * float)) (gm0 gm : Game) :
  start fuel g d = Some gm0 -> writable d = true ->
  run fuel inputs gm0 = Some gm -> kept_on_disk gm.
Proof.
  intros Hs Hw Hr.
  apply (run_preserves kept_on_disk fuel) with (inputs := inputs) (gm := gm0);
    [ | | | | | | exact Hr].
  - intros ev gm1 gm2 [Hb [Hw1 Hl]] E. split.
    + apply (in_bounds_handle_event fuel ev gm1 gm2 Hb E).
    + destruct (handle_event_store fuel ev gm1 gm2 E) as [E1 E2].
      unfold stored. rewrite E1, E2. split; assumption.
  - intros gm1 gm2 [Hb [Hw1 Hl]] Hplay E. split.
    + apply (in_bounds_tick fuel gm1 gm2 Hb Hplay E).
    + destruct (tick_result fuel gm1 gm2 E) as (E1 & E2 & _).
      unfold stored. rewrite E1, E2. split; assumption.
  - intros dt gm1 H. exact H.
  - intros gm1 H. exact H.
  - intros gm1 [Hb [Hw1 Hl]]. unfold record_highscore.
    destruct (gameOver gm1 && (score gm1 >? highscore gm1)) eqn:E;
      [|split; [exact Hb | split; assumption]].
    split; [exact Hb|]. unfold stored. cbn [disk highscore].
    split; [exact Hw1|].
    apply save_then_load; [exact Hw1|].
    pose proof (in_bounds_score_range gm1 Hb).
    unfold INT_MIN, INT_MAX. lia.
  - destruct (start_inv fuel g d gm0 Hs) as (f & g' & _ & ->).
    split; [now apply in_bounds_fresh|]. split; [exact Hw | reflexivity].
Qed.

(** X15: on a disk that can be written, in every state of a run the file
    holds the high score the program holds: loading the file again gives
    exactly [highscore], so nothing is lost or invented when the program
    is closed and started again. *)
Theorem file_holds_the_high_score (fuel : nat) (g : rng) (d : Disk)
    (inputs : list (list Event * float)) (gm0 gm : Game) :
  start fuel g d = Some gm0 -> writable d = true ->
  run fuel inputs gm0 = Some gm ->
  loadHighscore (disk gm) default_path = highscore gm.
Proof.
  intros Hs Hw Hr.
  destruct (kept_on_disk_run fuel g d inputs gm0 gm Hs Hw Hr)
    as [_ [_ H]]. exact H.
Qed.

Lemma frame_highscore (fuel : nat) (evs : list Event) (dt : float)
    (gm gm' : Game) :
  frame fuel evs dt gm = Some gm' ->
  highscore gm <= highscore gm' /\
  (gameOver gm' = true -> score gm' <= highscore gm') /\
  (files (disk gm') = files (disk gm) \/ writable (disk gm) = true).
Proof.
  intros Hf.
  destruct (frame_inv fuel evs dt gm gm' Hf) as (gm1 & gm2 & He & Hs & ->).
  destruct (poll_events_store fuel evs gm gm1 He) as [Hh1 Hd1].
  destruct (simulate_result fuel dt gm1 gm2 Hs) as (Hh2 & Hd2 & _).
  unfold record_highscore.
  destruct (gameOver gm2) eqn:Hover; cbn [andb].
  - rewrite Z.gtb_ltb. destruct (highscore gm2 <? score gm2) eqn:E.
    + apply Z.ltb_lt in E. cbn [highscore gameOver score disk].
      split; [lia|]. split; [lia|].
      unfold saveHighscore. cbn [files]. rewrite Hd2, Hd1.
      destruct (writable (disk gm)); [right; reflexivity | left; reflexivity].
    + apply Z.ltb_ge in E. split; [lia|]. split; [intros _; lia|].
      left. congruence.
  - split; [lia|]. split; [congruence|]. left. congruence.
Qed.

(** X16: over a run the high score held never falls below the one loaded
    at the start, after every frame that ends in GameOver it is at least
    the score, and on a disk that cannot be written no file changes. *)
Theorem high_score_never_falls (fuel : nat) (g : rng) (d : Disk)
    (inputs : list (list Event * float)) (gm0 gm : Game) :
  start fuel g d = Some gm0 -> run fuel inputs gm0 = Some gm ->
  loadHighscore d default_path <= highscore gm /\
  (gameOver gm = true -> score gm <= highscore gm) /\
  (writable d = false -> files (disk gm) = files d).
Proof.
  intros Hs Hr.
  destruct (start_inv fuel g d gm0 Hs) as (f & g' & _ & E0).
  assert (H0 : loadHighscore d default_path <= highscore gm0 /\
               (gameOver gm0 = true -> score gm0 <= highscore gm0) /\
               (writable d = false ->
                files (disk gm0) = files d /\
                writable (disk gm0) = false)).
  { rewrite E0. cbn. split; [lia|]. split; [discriminate | auto]. }
  clear Hs E0.
  assert (H : loadHighscore d default_path <= highscore gm /\
              (gameOver gm = true -> score gm <= highscore gm) /\
              (writable d = false ->
               files (disk gm) = files d /\ writable (disk gm) = false)).
  { revert gm0 H0 Hr.
    induction inputs as [|[evs dt] rest IH]; intros gm0 H0; cbn [run].
    - intros E; injection E as <-. exact H0.
    - destruct (window_open gm0); [|intros E; injection E as <-; exact H0].
      destruct (frame fuel evs dt gm0) as [gm1|] eqn:E1; [|discriminate].
      apply IH.
      destruct (frame_highscore fuel evs dt gm0 gm1 E1) as (Hm & Ho & Hfiles).
      destruct H0 as (A & _ & C).
      split; [lia|]. split; [exact Ho|].
      intros Hw. destruct (C Hw) as [Cf Cw].
      destruct Hfiles as [Hfiles | Hfiles]; [|congruence].
      split; [congruence|].
      destruct (frame_inv fuel evs dt gm0 gm1 E1)
        as (ga & gb & He & Hsim & ->).
      destruct (poll_events_store fuel evs gm0 ga He) as [_ Hd1].
      destruct (simulate_result fuel dt ga gb Hsim) as (_ & Hd2 & _).
      unfold record_highscore.
      destruct (gameOver gb && (score gb >? highscore gb));
        cbn [disk saveHighscore writable]; congruence. }
  destruct H as (A & B & C). split; [exact A|]. split; [exact B|].
  intros Hw. apply (C Hw).
Qed.

End HighscoreInvariant.

Lemma file_holds_the_high_score_witness :
  loadHighscore (disk crashed) default_path = 10 /\ highscore crashed = 10.
Proof.
  split; [|reflexivity].
  apply (@file_holds_the_high_score Scripted 5%nat [21; 15; 0; 0]
           (mkDisk own_file [] true []) (repeat ([], one_second) 20)
           food_ahead crashed eq_refl eq_refl eq_refl).
Defined.

Lemma high_score_never_falls_witness :
  0 <= highscore crashed /\ score crashed <= highscore crashed.
Proof.
  destruct (@high_score_never_falls Scripted 5%nat [21; 15; 0; 0]
              (mkDisk own_file [] true []) (repeat ([], one_second) 20)
              food_ahead crashed eq_refl eq_refl) as (H1 & H2 & _).
  split; [exact H1 | apply H2; reflexivity].
Defined.

(* ------------------------------------------------------------------ *)
(** ** The tick interval over a run *)

Lemma delay_in_range_all (n : nat) : delay_in_range n = true.
Proof.
  destruct (Nat.lt_ge_cases n 28) as [Hlt | Hge].
  - assert (All : forallb delay_in_range (seq 0 28) = true)
      by (vm_compute; reflexivity).
    rewrite forallb_forall in All. apply All, in_seq. lia.
  - unfold delay_in_range.
    rewrite (delay_after_floor n Hge), (delay_after_floor (S n)) by lia.
    vm_compute. reflexivity.
Qed.

Section IntervalInvariant.
Context {G : Generator}.

(** X17: in every state of a run the interval between steps is a float
    between the floor 0.03f and the start value 0.12f (never NaN), and a
    step never makes it longer: the game only speeds up within a session,
    and never beyond one step per 0.03 s. *)
Theorem interval_stays_in_range (fuel : nat) (g : rng) (d : Disk)
    (inputs : list (list Event * float)) (gm0 gm : Game) :
  start fuel g d = Some gm0 -> run fuel inputs gm0 = Some gm ->
  fleb f0_03 (moveDelay gm) = true /\
  fleb (moveDelay gm) f0_12 = true /\
  forall gm' : Game,
    tick fuel gm = Some gm' ->
    fleb (moveDelay gm') (moveDelay gm) = true /\
    fleb f0_03 (moveDelay gm') = true.
Proof.
  intros Hs Hr.
  destruct (paced_run fuel inputs gm0 gm (paced_start fuel g d gm0 Hs) Hr)
    as (n & _ & Hd).
  pose proof (delay_in_range_all n) as Hn. unfold delay_in_range in Hn.
  apply andb_true_iff in Hn. destruct Hn as [Hn Hstep].
  apply andb_true_iff in Hn. destruct Hn as [Hn Hself].
  apply andb_true_iff in Hn. destruct Hn as [Hlow Hhigh].
  rewrite Hd. split; [exact Hlow|]. split; [exact Hhigh|].
  intros gm' Ht.
  destruct (tick_meal fuel gm gm' Ht) as [(_ & Hd' & _) | (_ & Hd' & _)];
    rewrite Hd', Hd.
  - split; [exact Hstep|].
    pose proof (delay_in_range_all (S n)) as Hn'. unfold delay_in_range in Hn'.
    apply andb_true_iff in Hn'. destruct Hn' as [Hn' _].
    apply andb_true_iff in Hn'. destruct Hn' as [Hn' _].
    apply andb_true_iff in Hn'. destruct Hn' as [Hn' _]. exact Hn'.
  - split; [exact Hself | exact Hlow].
Qed.

End IntervalInvariant.

Lemma interval_stays_in_range_witness :
  fleb f0_03 (moveDelay after_meal) = true /\
  fleb (moveDelay after_meal) f0_12 = true.
Proof.
  destruct (@interval_stays_in_range Scripted 5%nat [21; 15; 0; 0]
              (mkDisk own_file [] true []) [([], one_second)] food_ahead after_meal
              eq_refl eq_refl) as (H1 & H2 & _).
  split; assumption.
Defined.

(* ------------------------------------------------------------------ *)
(** ** Rendering *)

(** Pixel coordinates of grid cells are converted to [float] without
    rounding. *)
Lemma float_of_int_cell (k : Z) :
  0 <= k < 40 ->
  (float_value (float_of_int (k * BLOCK)) == inject_Z (k * BLOCK))%Q.
Proof.
  intros Hk.
  assert (All : forallb exact_pixel (seq 0 40) = true)
    by (vm_compute; reflexivity).
  rewrite forallb_forall in All.
  specialize (All (Z.to_nat k) ltac:(apply in_seq; lia)).
  unfold exact_pixel in All. rewrite Z2Nat.id in All by lia.
  apply Qeq_bool_iff, All.
Qed.

Lemma draw_block_on_screen (p : Vector2i) (fill : Color) :
  inside p = true -> on_screen (draw_block p fill).
Proof.
  intros H. apply inside_iff in H. unfold COLS, ROWS in H.
  exists (x p), (y p). unfold WIDTH, HEIGHT, block_side, COLS, ROWS.
  split; [lia|]. split; [lia|].
  split; [apply float_of_int_cell; lia|].
  split; [apply float_of_int_cell; lia|].
  unfold BLOCK. lia.
Qed.

Lemma draw_snake_on_screen (segments : list Vector2i) :
  Forall (fun p => inside p = true) segments ->
  forall head : bool, Forall on_screen (draw_snake head segments).
Proof.
  induction 1 as [|p rest Hp _ IH]; intros head; cbn [draw_snake];
    constructor; [apply draw_block_on_screen, Hp | apply IH].
Qed.

Lemma draw_snake_blocks (segments : list Vector2i) (head : bool) :
  filter is_block (draw_snake head segments) = draw_snake head segments /\
  length (draw_snake head segments) = length segments.
Proof.
  revert head. induction segments as [|p rest IH]; intros head;
    cbn [draw_snake filter length is_block draw_block]; [auto|].
  destruct (IH false) as [-> ->]. auto.
Qed.

Section RenderProps.
Context {G : Generator} {R : InRange G}.

(** X18: while the game is being played, everything the drawing code
    draws is on the screen: each block's pixel position is the exact
    float of 20 times a grid cell, and its 19x19 square lies inside the
    800x600 window.  One block is drawn per segment, and one more for the
    food unless the food is the sentinel. *)
Theorem render_stays_on_screen (fuel : nat) (g : rng) (d : Disk)
    (inputs : list (list Event * float)) (gm0 gm : Game)
    (fontLoaded : bool) :
  start fuel g d = Some gm0 -> run fuel inputs gm0 = Some gm ->
  gameOver gm = false ->
  Forall on_screen (render fontLoaded gm) /\
  length (filter is_block (render fontLoaded gm)) =
    (length (body (snake gm))
     + (if Veqb (food gm) no_food then 0 else 1))%nat.
Proof.
  intros Hs Hr Hplay.
  pose proof (playing_valid_run fuel inputs gm0 gm
                (playing_valid_start fuel g d gm0 Hs) Hr Hplay)
    as (_ & Hin & _).
  destruct (fed_run fuel g d inputs gm0 gm Hs Hr) as [_ Hfood].
  assert (Hf : (x (food gm) >=? 0) = negb (Veqb (food gm) no_food) /\
               (Veqb (food gm) no_food = false -> inside (food gm) = true)).
  { destruct Hfood as [-> | [Hi _]]; [split; [reflexivity | discriminate]|].
    pose proof Hi as Hi'. apply inside_iff in Hi'.
    assert (Hne : Veqb (food gm) no_food = false).
    { apply Veqb_neq. intros E. rewrite E in Hi'. cbn in Hi'. lia. }
    rewrite Hne. split; [|auto]. cbn [negb]. rewrite Z.geb_leb.
    apply Z.leb_le. lia. }
  destruct Hf as [Hx Hi]. unfold render. rewrite Hx. split.
  - repeat (apply Forall_app; split).
    + repeat constructor.
    + destruct (Veqb (food gm) no_food); cbn [negb]; [constructor|].
      constructor; [apply draw_block_on_screen, Hi; reflexivity|constructor].
    + apply draw_snake_on_screen, Hin.
    + destruct fontLoaded; repeat constructor.
    + destruct (gameOver gm && fontLoaded); repeat constructor.
    + repeat constructor.
  - rewrite !filter_app, !length_app.
    destruct (draw_snake_blocks (body (snake gm)) true) as [-> ->].
    destruct (Veqb (food gm) no_food); destruct fontLoaded;
      destruct (gameOver gm); cbn; lia.
Qed.

End RenderProps.

Lemma render_stays_on_screen_witness :
  Forall on_screen (render true after_turn) /\
  length (filter is_block (render true after_turn)) = 3%nat.
Proof.
  apply (@render_stays_on_screen Scripted Scripted_in_range 5%nat
           [21; 15; 0; 0] (mkDisk own_file [] true [])
           [([], one_second); ([KeyPressed Keyboard.Down], one_second)]
           food_ahead after_turn true eq_refl eq_refl eq_refl).
Defined.

(* ------------------------------------------------------------------ *)
(** ** Keys *)

(** X19: W, S, A and D steer exactly as the arrow keys Up, Down, Left and
    Right do, for every current heading, and pressing a key twice steers
    as pressing it once. *)
Theorem letter_keys_are_arrow_keys (d : Vector2i) (code : Keyboard.Key) :
  steer Keyboard.W d = steer Keyboard.Up d /\
  steer Keyboard.S d = steer Keyboard.Down d /\
  steer Keyboard.A d = steer Keyboard.Left d /\
  steer Keyboard.D d = steer Keyboard.Right d /\
  steer code (steer code d) = steer code d.
Proof.
  repeat split; try reflexivity.
  destruct (requested code) as [r|] eqn:E.
  - rewrite !(steer_requested code r _ E).
    destruct (Veqb d (Vneg r)) eqn:E1; [now rewrite E1|].
    destruct (Veqb r (Vneg r)) eqn:E2; reflexivity.
  - now rewrite !(steer_other code _ E).
Qed.

(* ------------------------------------------------------------------ *)
(** ** A full board *)

Lemma full_board_covers_grid (s : Snake) (p : Vector2i) :
  valid_snake s -> Z.of_nat (length (body s)) = COLS * ROWS ->
  inside p = true -> In p (body s).
Proof.
  intros (_ & Hin & Hnd) Hlen Hp.
  assert (Hincl : incl (body s) cells).
  { intros q Hq. apply cells_inside. rewrite Forall_forall in Hin. auto. }
  assert (Hle : (length cells <= length (body s))%nat).
  { pose proof cells_length. lia. }
  apply (NoDup_length_incl Hnd Hle Hincl). apply cells_inside, Hp.
Qed.

Section FullBoard.
Context {G : Generator}.

(** X20: when the snake covers all 1200 cells and growth is pending (the
    last food has just been eaten), the next step ends the game whatever
    the heading: the new head is outside the grid or on the snake.  The
    step asks for no food, and the score is kept. *)
Theorem full_board_ends_game (fuel : nat) (gm : Game) :
  valid_snake (snake gm) ->
  Z.of_nat (length (body (snake gm))) = COLS * ROWS ->
  grow (snake gm) = true ->
  tick fuel gm = Some (moved gm) /\ gameOver (moved gm) = true /\
  score (moved gm) = score gm /\
  length (body (snake (moved gm))) = 1201%nat.
Proof.
  intros Hv Hlen Hg.
  assert (NE : body (snake gm) <> []) by apply Hv.
  pose proof (move_body (snake gm) NE) as B. rewrite Hg in B.
  assert (Hc : collided gm = true).
  { unfold collided.
    destruct (hitsSelf (move (snake gm))) eqn:Hs; [reflexivity|].
    destruct (_ || _) eqn:Hw; [reflexivity|]. exfalso.
    unfold hitsSelf in Hs. apply scan_from_not_In in Hs. apply Hs.
    rewrite B. cbn [front hd tl].
    apply (full_board_covers_grid (snake gm) _ Hv Hlen).
    unfold inside. rewrite B in Hw. cbn [front hd] in Hw. now rewrite Hw. }
  split; [|split; [exact Hc|split; [reflexivity|]]].
  - rewrite tick_cases, Hc. reflexivity.
  - cbn [moved snake]. rewrite move_length, Hg.
    unfold COLS, ROWS in Hlen. lia.
Qed.

End FullBoard.

Lemma full_board_ends_game_witness :
  tick 0 full_board = Some (moved full_board) /\
  gameOver (moved full_board) = true /\ score (moved full_board) = 12000.
Proof.
  assert (Hv : valid_snake (snake full_board)).
  { split; [|split].
    - vm_compute. discriminate.
    - apply Forall_forall. intros p Hp.
      assert (All : forallb inside (rev serpentine) = true)
        by (vm_compute; reflexivity).
      rewrite forallb_forall in All. apply All, Hp.
    - assert (E : nodup Vec_eq_dec (rev serpentine) = rev serpentine)
        by (vm_compute; reflexivity).
      cbn [full_board snake body]. rewrite <- E. apply NoDup_nodup. }
  destruct (@full_board_ends_game Scripted 0%nat full_board Hv
              ltac:(vm_compute; reflexivity) eq_refl)
    as (Ht & Hover & Hs & _).
  split; [exact Ht|]. split; [exact Hover | exact Hs].
Defined.
